(** * The response cache of [src/services/cacheService.ts]

    A shallow embedding of the class [CacheService] (key derivation, the
    per-kind time to live, [get], [set], [cleanup], [clear], [getStats])
    and the properties of it that the specification states.

    Conventions of the embedding.
    - A JavaScript string is a sequence of UTF-16 code units.  The strings
      handled here are embedded as [string], one [ascii] per code unit, so
      the embedding covers the strings whose code units are below 256
      (U+0000 to U+00FF).  On that range [String.prototype.toLowerCase]
      acts unit by unit and the class [\s] of regular expressions contains
      seven code units; both are written out below.
    - [Date.now()] returns an integer number of milliseconds; readings and
      durations are in [Z] (the sums formed by the code stay far below
      2^53, where the doubles of JavaScript are exact).  Every call of
      [Date.now()] in the source is an argument of the embedded function:
      one reading for [get], [cleanup] and [getStats], two for [set].
    - The [Map<string, CacheEntry>] is a [gmap string (CacheEntry T)];
      none of the operations modelled depends on the insertion order that
      a JavaScript [Map] remembers.
    - The payload type [T] is a parameter; the result [T | null] of [get]
      is an [option T], [None] being [null].
    - [console.log] lines carry no state and are left out. *)

From Stdlib Require Import ZArith NArith Ascii String.
From stdpp Require Import gmap strings list fin_maps.

Local Open Scope Z_scope.

(** ** Strings: [toLowerCase] and [replace(/\s+/g, '_')] *)

Module JsString.

(** Code unit of a character. *)
Definition code (c : ascii) : N := N_of_ascii c.

(** The code units that [toLowerCase] changes below 256: A-Z and
    U+00C0-U+00DE without the multiplication sign U+00D7. *)
Definition isUpper (c : ascii) : bool :=
  let n := code c in
  ((65 <=? n) && (n <=? 90) ||
   (192 <=? n) && (n <=? 222) && negb (n =? 215))%N.

Definition lowerChar (c : ascii) : ascii :=
  if isUpper c then ascii_of_N (code c + 32) else c.

Fixpoint toLowerCase (s : string) : string :=
  match s with
  | EmptyString => EmptyString
  | String c s' => String (lowerChar c) (toLowerCase s')
  end.

(** The class [\s] below 256: TAB, LF, VT, FF, CR, SPACE and the
    no-break space U+00A0. *)
Definition isWhiteSpace (c : ascii) : bool :=
  let n := code c in
  ((9 <=? n) && (n <=? 13) || (n =? 32) || (n =? 160))%N.

(** [s.replace(/\s+/g, sep)]: the matches of [\s+] are the maximal runs
    of white space, found from left to right; [in_run] tells that the
    previous code unit belonged to the run being replaced. *)
Fixpoint replaceRuns (sep : string) (in_run : bool) (s : string) : string :=
  match s with
  | EmptyString => EmptyString
  | String c s' =>
      if isWhiteSpace c
      then (if in_run then replaceRuns sep true s'
            else sep +:+ replaceRuns sep true s')
      else String c (replaceRuns sep false s')
  end.

Definition replaceWhiteSpace (sep : string) (s : string) : string :=
  replaceRuns sep false s.

(** [s.split(sep)] for a separator of one code unit: the pieces between
    the occurrences of [sep], in order.  The array that [split] returns
    is never empty, so it is given as its first piece and the others. *)
Fixpoint split (sep : ascii) (s : string) : string * list string :=
  match s with
  | EmptyString => (EmptyString, [])
  | String c s' =>
      let (piece, pieces) := split sep s' in
      if Ascii.eqb c sep then (EmptyString, piece :: pieces)
      else (String c piece, pieces)
  end.

(** A value that may be [undefined], inside a template literal. *)
Definition template (o : option string) : string :=
  match o with
  | Some s => s
  | None => "undefined"
  end.

End JsString.

(** ** Numbers: [Math.round] of a quotient *)

Module JsNumber.

(** [Math.round(n / d)] for integers [n] and [d > 0]: the integer nearest
    to the quotient, the upper one at a tie.  The division is a division
    of doubles; for [d = 60000] and [|n| < 2^53] the double nearest to
    [n / d] is on the same side of every half-integer as [n / d] itself
    (the quotient is at least 1/60000 away from a half-integer it is not
    equal to, the double at most 2^-16 away from the quotient), so the
    result is the one of exact arithmetic. *)
Definition roundDiv (n d : Z) : Z := (2 * n + d) / (2 * d).

End JsNumber.

(** ** The cache *)

Module CacheService.
Import JsString.

Record Location := { city : string; country : string }.

Record CacheEntry (T : Type) :=
  { data : T; timestamp : Z; expiresAt : Z }.
Arguments data {T} _.
Arguments timestamp {T} _.
Arguments expiresAt {T} _.

Record CacheConfig :=
  { weatherTTL : Z;
    newsTTL : Z;
    satelliteTTL : Z;
    criticalIssuesTTL : Z;
    environmentalDataTTL : Z }.

Definition config : CacheConfig :=
  {| weatherTTL := 10 * 60 * 1000;
     newsTTL := 30 * 60 * 1000;
     satelliteTTL := 60 * 60 * 1000;
     criticalIssuesTTL := 15 * 60 * 1000;
     environmentalDataTTL := 5 * 60 * 1000 |}.

(** [`${type}_${location.city}_${location.country}`.toLowerCase().replace(/\s+/g, '_')] *)
Definition generateKey (type : string) (location : Location) : string :=
  replaceWhiteSpace "_"
    (toLowerCase (type +:+ "_" +:+ city location +:+ "_" +:+ country location)).

(** [Date.now() < entry.expiresAt], [now] being the reading. *)
Definition isValid {T} (now : Z) (entry : CacheEntry T) : bool :=
  now <? expiresAt entry.

Definition getTTL (type : string) : Z :=
  if String.eqb type "weather" then weatherTTL config
  else if String.eqb type "news" then newsTTL config
  else if String.eqb type "satellite" then satelliteTTL config
  else if String.eqb type "criticalIssues" then criticalIssuesTTL config
  else if String.eqb type "environmental_data" then environmentalDataTTL config
  else 5 * 60 * 1000.

Section Operations.
Context {T : Type}.

(** [get] returns the result and the cache it leaves.  The clock is
    read (inside [isValid]) only when the key has an entry. *)
Definition get (type : string) (location : Location) (now : Z)
    (cache : gmap string (CacheEntry T)) : option T * gmap string (CacheEntry T) :=
  let key := generateKey type location in
  match cache !! key with
  | None => (None, delete key cache)
  | Some entry =>
      if isValid now entry then (Some (data entry), cache)
      else (None, delete key cache)
  end.

(** [set] reads the clock twice, in this order: [t_stamp] for
    [timestamp] and [t_exp] for [expiresAt]. *)
Definition set (type : string) (location : Location) (d : T)
    (t_stamp t_exp : Z) (cache : gmap string (CacheEntry T))
    : gmap string (CacheEntry T) :=
  let key := generateKey type location in
  let ttl := getTTL type in
  let entry := {| data := d; timestamp := t_stamp; expiresAt := t_exp + ttl |} in
  <[key := entry]> cache.

(** The loop of [cleanup] over [this.cache.entries()], deleting from
    the map it walks. *)
Definition cleanup (now : Z) (cache : gmap string (CacheEntry T))
    : gmap string (CacheEntry T) :=
  map_fold (fun key entry acc =>
              if now >=? expiresAt entry then delete key acc else acc)
           cache cache.

Definition clear (cache : gmap string (CacheEntry T))
    : gmap string (CacheEntry T) := ∅.

Record Stats :=
  { totalEntries : nat; validEntries : nat; expiredEntries : nat }.

(** The loop of [getStats] over [this.cache.values()]: the pair is
    ([validEntries], [expiredEntries]). *)
Definition countEntries (now : Z) (cache : gmap string (CacheEntry T)) : nat * nat :=
  map_fold (fun _ entry acc =>
              if now <? expiresAt entry then (S (fst acc), snd acc)
              else (fst acc, S (snd acc)))
           (0%nat, 0%nat) cache.

(** [getStats] returns the statistics and the cache it leaves. *)
Definition getStats (now : Z) (cache : gmap string (CacheEntry T))
    : Stats * gmap string (CacheEntry T) :=
  let counts := countEntries now cache in
  ({| totalEntries := size cache;
      validEntries := fst counts;
      expiredEntries := snd counts |}, cache).

Record DebugInfo :=
  { key : string; type : string; location : string; age : Z; expiresIn : Z }.

(** The record that the loop of [getDebugInfo] pushes for one entry:
    [const [type, city, country] = key.split('_')], the location
    [`${city} ${country}`], and the two durations in minutes. *)
Definition debugRecord (now : Z) (k : string) (entry : CacheEntry T) : DebugInfo :=
  let (first, others) := split "_" k in
  let city := others !! 0%nat in
  let country := others !! 1%nat in
  {| key := k;
     type := first;
     location := template city +:+ " " +:+ template country;
     age := JsNumber.roundDiv (now - timestamp entry) 60000;
     expiresIn := JsNumber.roundDiv (expiresAt entry - now) 60000 |}.

(** [getDebugInfo]: one record per entry.  The JavaScript [Map] lists
    its entries in insertion order, which the [gmap] does not record: the
    list below has the records in the order of [map_to_list], and only
    what does not depend on the order is stated about it. *)
Definition getDebugInfo (now : Z) (cache : gmap string (CacheEntry T))
    : list DebugInfo :=
  (fun ke => debugRecord now (fst ke) (snd ke)) <$> map_to_list cache.
End Operations.

End CacheService.

Import JsString CacheService.

(** ** The life of an entry over a sequence of calls *)

Module Lifecycle.

(** The state of a key, as the specification names it, judged at the
    clock reading [now]. *)
Inductive Status := Absent | Valid | Stale.

Definition status {T} (key : string) (now : Z)
    (cache : gmap string (CacheEntry T)) : Status :=
  match cache !! key with
  | None => Absent
  | Some entry => if isValid now entry then Valid else Stale
  end.

(** A call of a public method, with the readings of the clock that the
    call receives. *)
Inductive Op (T : Type) :=
| OpGet (type : string) (location : Location) (now : Z)
| OpSet (type : string) (location : Location) (d : T) (t_stamp t_exp : Z)
| OpCleanup (now : Z)
| OpClear
| OpGetStats (now : Z).
Arguments OpGet {T} _ _ _.
Arguments OpSet {T} _ _ _ _ _.
Arguments OpCleanup {T} _.
Arguments OpClear {T}.
Arguments OpGetStats {T} _.

Definition exec {T} (op : Op T) (cache : gmap string (CacheEntry T))
    : gmap string (CacheEntry T) :=
  match op with
  | OpGet type location now => snd (get type location now cache)
  | OpSet type location d t_stamp t_exp => set type location d t_stamp t_exp cache
  | OpCleanup now => cleanup now cache
  | OpClear => clear cache
  | OpGetStats now => snd (getStats now cache)
  end.

Fixpoint run {T} (ops : list (Op T)) (cache : gmap string (CacheEntry T))
    : gmap string (CacheEntry T) :=
  match ops with
  | [] => cache
  | op :: ops' => run ops' (exec op cache)
  end.

(** The readings of the clock in call order. *)
Definition readings {T} (op : Op T) : list Z :=
  match op with
  | OpGet _ _ now => [now]
  | OpSet _ _ _ t_stamp t_exp => [t_stamp; t_exp]
  | OpCleanup now => [now]
  | OpClear => []
  | OpGetStats now => [now]
  end.

Definition clockReadings {T} (ops : list (Op T)) : list Z :=
  flat_map readings ops.

(** A clock that never runs backwards: every reading is at least the
    one before it, starting from [t]. *)
Fixpoint nondecreasingFrom (t : Z) (l : list Z) : Prop :=
  match l with
  | [] => True
  | x :: l' => t <= x /\ nondecreasingFrom x l'
  end.

(** The call is a [set] whose derived key is [key]. *)
Definition writes {T} (key : string) (op : Op T) : Prop :=
  match op with
  | OpSet type location _ _ _ => generateKey type location = key
  | _ => False
  end.

End Lifecycle.

Import Lifecycle.

(** ** Vocabulary of the statements about keys *)

Module KeyNotions.

(** What [generateKey] does to one component of the key. *)
Definition normalize (s : string) : string :=
  replaceWhiteSpace "_" (toLowerCase s).

(** Two code units that are the same letter, in the same or in the
    other case: the lower-case letter is 32 above its capital. *)
Definition caseVariant (a b : ascii) : Prop :=
  a = b \/
  (isUpper a = true /\ code b = (code a + 32)%N) \/
  (isUpper b = true /\ code a = (code b + 32)%N).

Fixpoint allWhiteSpace (s : string) : bool :=
  match s with
  | EmptyString => true
  | String c s' => isWhiteSpace c && allWhiteSpace s'
  end.

(** A run: a non-empty string of white space only. *)
Definition isRun (w : string) : Prop :=
  w <> EmptyString /\ allWhiteSpace w = true.

(** The string ends with white space; [r] answers for the empty string
    (what came before it). *)
Fixpoint endsWithSpace (r : bool) (s : string) : bool :=
  match s with
  | EmptyString => r
  | String c s' => endsWithSpace (isWhiteSpace c) s'
  end.

(** The string starts with white space. *)
Definition startsWithSpace (s : string) : bool :=
  match s with
  | EmptyString => false
  | String c _ => isWhiteSpace c
  end.

(** Two spellings of one component: the same code units up to case
    outside white space, and a run of white space wherever the other has
    one, of any length and made of any white-space units. *)
Inductive sameSpelling : string -> string -> Prop :=
| spellEmpty : sameSpelling EmptyString EmptyString
| spellUnit a b s s' :
    isWhiteSpace a = false -> caseVariant a b -> sameSpelling s s' ->
    sameSpelling (String a s) (String b s')
| spellRun w w' s s' :
    isRun w -> isRun w' ->
    startsWithSpace s = false -> startsWithSpace s' = false ->
    sameSpelling s s' ->
    sameSpelling (w +:+ s) (w' +:+ s').

End KeyNotions.

Import KeyNotions.

(** ** Vocabulary of the statements about the shape of keys and about
    sequences of calls *)

Module Shapes.

Fixpoint allUnits (p : ascii -> bool) (s : string) : bool :=
  match s with
  | EmptyString => true
  | String c s' => p c && allUnits p s'
  end.

(** A code unit that is neither white space nor a letter that
    [toLowerCase] changes. *)
Definition plainUnit (c : ascii) : bool :=
  negb (isWhiteSpace c) && negb (isUpper c).

(** A code unit that is neither white space nor the separator of keys. *)
Definition wordUnit (c : ascii) : bool :=
  negb (isWhiteSpace c) && negb (Ascii.eqb c "_").

(** A component without white space and without the separator. *)
Definition simpleWord (s : string) : Prop := allUnits wordUnit s = true.

Fixpoint occurrences (c : ascii) (s : string) : nat :=
  match s with
  | EmptyString => 0
  | String x s' => (if Ascii.eqb x c then 1 else 0) + occurrences c s'
  end.

(** The kinds that [getTTL] knows. *)
Definition recognizedKinds : list string :=
  ["weather"; "news"; "satellite"; "criticalIssues"; "environmental_data"].

Definition isSet {T} (op : Op T) : bool :=
  match op with
  | OpSet _ _ _ _ _ => true
  | _ => false
  end.

Fixpoint countSets {T} (ops : list (Op T)) : nat :=
  match ops with
  | [] => 0
  | op :: ops' => (if isSet op then 1 else 0) + countSets ops'
  end.

(** Every key of the cache is a key that [generateKey] derives. *)
Definition keysDerived {T} (cache : gmap string (CacheEntry T)) : Prop :=
  forall k, is_Some (cache !! k) ->
  exists (type : string) (location : Location), k = generateKey type location.

End Shapes.

Import Shapes.

(** ** Sanity checks of the embedding on concrete calls *)

Example generateKey_new_york :
  generateKey "weather" {| city := "New   York"; country := "US" |} = "weather_new_york_us"%string.
Proof. reflexivity. Qed.

Example get_before_expiry :
  fst (get "satellite" {| city := "Lagos"; country := "NG" |} 3599999
        (set "satellite" {| city := "Lagos"; country := "NG" |} "clear"%string 0 0 ∅))
  = Some "clear"%string.
Proof. vm_compute. reflexivity. Qed.

Example getStats_one_expired :
  fst (getStats 3600001
        (set "news" {| city := "Lagos"; country := "NG" |} "x"%string 3600000 3600000
        (set "satellite" {| city := "Lagos"; country := "NG" |} "clear"%string 0 0 ∅)))
  = {| totalEntries := 2; validEntries := 1; expiredEntries := 1 |}.
Proof. vm_compute. reflexivity. Qed.

Example cleanup_one_expired :
  size (cleanup 3600001
        (set "news" {| city := "Lagos"; country := "NG" |} "x"%string 3600000 3600000
        (set "satellite" {| city := "Lagos"; country := "NG" |} "clear"%string 0 0 ∅)))
  = 1%nat.
Proof. vm_compute. reflexivity. Qed.

(** ** Facts about the string functions *)

Section StringFacts.

(** [String.append] is kept folded by [simpl]; its two equations. *)
Lemma append_nil (b : string) : EmptyString +:+ b = b.
Proof. reflexivity. Qed.

Lemma append_cons (x : ascii) (a b : string) :
  String x a +:+ b = String x (a +:+ b).
Proof. reflexivity. Qed.

Lemma append_nil_r (a : string) : a +:+ EmptyString = a.
Proof.
  induction a as [|x a IH]; [reflexivity |].
  now rewrite append_cons, IH.
Qed.

Lemma append_assoc' (a b c : string) : (a +:+ b) +:+ c = a +:+ (b +:+ c).
Proof.
  induction a as [|x a IH]; [reflexivity |].
  now rewrite !append_cons, IH.
Qed.

Lemma append_length (a b : string) :
  String.length (a +:+ b) = (String.length a + String.length b)%nat.
Proof.
  induction a as [|x a IH]; [reflexivity |].
  rewrite append_cons. simpl. now rewrite IH.
Qed.

Lemma toLowerCase_app (a b : string) :
  toLowerCase (a +:+ b) = toLowerCase a +:+ toLowerCase b.
Proof.
  induction a as [|x a IH]; [reflexivity |].
  rewrite append_cons. simpl. now rewrite IH, append_cons.
Qed.

(** A lower-cased code unit is not changed again. *)
Lemma lowerChar_idem (c : ascii) : lowerChar (lowerChar c) = lowerChar c.
Proof.
  destruct c as [[] [] [] [] [] [] [] []]; vm_compute; reflexivity.
Qed.

Lemma lowerChar_caseVariant (a b : ascii) :
  caseVariant a b -> lowerChar a = lowerChar b.
Proof.
  assert (Hup : forall x y, isUpper x = true -> code y = (code x + 32)%N ->
                            lowerChar x = lowerChar y).
  { intros x y Hx Hy.
    assert (Ey : y = lowerChar x).
    { unfold lowerChar. rewrite Hx, <- Hy. unfold code.
      now rewrite ascii_N_embedding. }
    rewrite Ey. symmetry. apply lowerChar_idem. }
  intros [-> | [[Ha Hb] | [Hb Ha]]]; [reflexivity | now apply Hup |].
  symmetry. now apply Hup.
Qed.

(** [replaceRuns] over a concatenation: the second part is processed
    knowing whether the first one ended inside a run. *)
Lemma replaceRuns_app (sep : string) (r : bool) (a b : string) :
  replaceRuns sep r (a +:+ b)
  = replaceRuns sep r a +:+ replaceRuns sep (endsWithSpace r a) b.
Proof.
  revert r; induction a as [|x a IH]; intros r; [reflexivity |].
  rewrite append_cons. simpl.
  destruct (isWhiteSpace x); [destruct r |]; rewrite IH.
  - reflexivity.
  - symmetry. apply append_assoc'.
  - now rewrite append_cons.
Qed.

(** A run of white space gives the separator once, or nothing when it
    continues a run. *)
Lemma replaceRuns_run (sep : string) (r : bool) (w : string) :
  isRun w ->
  replaceRuns sep r w = (if r then EmptyString else sep) /\
  endsWithSpace r w = true.
Proof.
  intros [Hne Hall]. revert r Hne Hall.
  induction w as [|x w IH]; intros r Hne Hall; [congruence |].
  simpl in Hall. apply andb_true_iff in Hall as [Hx Hw]. simpl. rewrite Hx.
  destruct w as [|y w].
  - simpl. destruct r; split; try reflexivity. apply append_nil_r.
  - destruct (IH true ltac:(congruence) Hw) as [E1 E2].
    rewrite E1, E2. destruct r; split; try reflexivity. apply append_nil_r.
Qed.

(** Lower-casing neither makes nor removes white space. *)
Lemma isWhiteSpace_lower (c : ascii) : isWhiteSpace (lowerChar c) = isWhiteSpace c.
Proof.
  destruct c as [[] [] [] [] [] [] [] []]; vm_compute; reflexivity.
Qed.

Lemma isWhiteSpace_caseVariant (a b : ascii) :
  caseVariant a b -> isWhiteSpace a = isWhiteSpace b.
Proof.
  intros H. rewrite <- (isWhiteSpace_lower a), <- (isWhiteSpace_lower b).
  now rewrite (lowerChar_caseVariant a b H).
Qed.

Lemma endsWithSpace_lower (r : bool) (s : string) :
  endsWithSpace r (toLowerCase s) = endsWithSpace r s.
Proof.
  revert r; induction s as [|x s IH]; intros r; simpl; [reflexivity |].
  now rewrite IH, isWhiteSpace_lower.
Qed.

Lemma allWhiteSpace_lower (w : string) :
  allWhiteSpace w = true -> toLowerCase w = w.
Proof.
  induction w as [|x w IH]; simpl; [reflexivity |].
  intros H. apply andb_true_iff in H as [Hx Hw]. rewrite (IH Hw). f_equal.
  revert Hx. destruct x as [[] [] [] [] [] [] [] []]; vm_compute; congruence.
Qed.

End StringFacts.

(** ** Facts about the key *)

Section KeyFacts.

(** The separator is a code unit that neither function touches, so the
    three components are normalised independently. *)
Lemma replaceRuns_underscore (sep : string) (r : bool) (s : string) :
  replaceRuns sep r ("_" +:+ s) = "_" +:+ replaceRuns sep false s.
Proof. reflexivity. Qed.

Lemma generateKey_normalize (type : string) (location : Location) :
  generateKey type location
  = normalize type +:+ "_" +:+ normalize (city location)
      +:+ "_" +:+ normalize (country location).
Proof.
  unfold generateKey, normalize, replaceWhiteSpace.
  rewrite !toLowerCase_app.
  change (toLowerCase "_") with "_".
  rewrite replaceRuns_app, replaceRuns_underscore.
  now rewrite replaceRuns_app, replaceRuns_underscore.
Qed.

(** Around a run of white space: what comes before, one separator (none
    when the run continues one that [a] ends with), what comes after. *)
Lemma normalize_around_run (a w b : string) :
  isRun w ->
  normalize (a +:+ w +:+ b)
  = normalize a
      +:+ (if endsWithSpace false a then EmptyString else "_")
      +:+ replaceRuns "_" true (toLowerCase b).
Proof.
  intros Hw. unfold normalize, replaceWhiteSpace.
  rewrite !toLowerCase_app, (allWhiteSpace_lower w (proj2 Hw)).
  rewrite !replaceRuns_app, endsWithSpace_lower.
  now destruct (replaceRuns_run "_" (endsWithSpace false a) w Hw) as [-> ->].
Qed.

Lemma replaceRuns_not_space (sep : string) (r : bool) (b : string) :
  startsWithSpace b = false -> replaceRuns sep r b = replaceRuns sep false b.
Proof. destruct b as [|x b]; simpl; [reflexivity |]. now intros ->. Qed.

Lemma startsWithSpace_lower (s : string) :
  startsWithSpace (toLowerCase s) = startsWithSpace s.
Proof. destruct s as [|x s]; simpl; [reflexivity | apply isWhiteSpace_lower]. Qed.

Lemma normalize_unit (a : ascii) (s : string) :
  isWhiteSpace a = false ->
  normalize (String a s) = String (lowerChar a) (normalize s).
Proof.
  intros Ha. unfold normalize, replaceWhiteSpace. simpl.
  now rewrite isWhiteSpace_lower, Ha.
Qed.

Lemma normalize_run (w s : string) :
  isRun w -> startsWithSpace s = false ->
  normalize (w +:+ s) = "_" +:+ normalize s.
Proof.
  intros Hw Hs.
  change (w +:+ s) with (EmptyString +:+ w +:+ s).
  rewrite (normalize_around_run EmptyString w s Hw). simpl.
  rewrite append_nil. f_equal. apply replaceRuns_not_space.
  now rewrite startsWithSpace_lower.
Qed.

Lemma normalize_sameSpelling (s s' : string) :
  sameSpelling s s' -> normalize s = normalize s'.
Proof.
  induction 1 as [|a b s s' Ha Hab _ IH|w w' s s' Hw Hw' Hs Hs' _ IH].
  - reflexivity.
  - rewrite !normalize_unit, IH, (lowerChar_caseVariant a b Hab);
      [reflexivity | now rewrite <- (isWhiteSpace_caseVariant a b Hab) | exact Ha].
  - now rewrite !normalize_run, IH.
Qed.

End KeyFacts.

(** ** Facts about the operations *)

Section CacheFacts.
Context {T : Type}.
Implicit Types (cache : gmap string (CacheEntry T)) (entry : CacheEntry T).

Lemma getTTL_pos (type : string) : 0 < getTTL type.
Proof.
  unfold getTTL.
  repeat (destruct (String.eqb type _); [vm_compute; reflexivity |]).
  vm_compute; reflexivity.
Qed.

Lemma get_absent type location now cache :
  cache !! generateKey type location = None ->
  get type location now cache = (None, cache).
Proof. intros H. unfold get. rewrite H. now rewrite delete_id. Qed.

Lemma get_hit type location now cache entry :
  cache !! generateKey type location = Some entry ->
  now < expiresAt entry ->
  get type location now cache = (Some (data entry), cache).
Proof.
  intros H Hlt. unfold get, isValid. rewrite H.
  now apply Z.ltb_lt in Hlt as ->.
Qed.

Lemma get_stale type location now cache entry :
  cache !! generateKey type location = Some entry ->
  expiresAt entry <= now ->
  get type location now cache = (None, delete (generateKey type location) cache).
Proof.
  intros H Hle. unfold get, isValid. rewrite H.
  now apply Z.ltb_ge in Hle as ->.
Qed.

Lemma set_lookup type location (d : T) t_stamp t_exp cache :
  set type location d t_stamp t_exp cache !! generateKey type location
  = Some {| data := d; timestamp := t_stamp; expiresAt := t_exp + getTTL type |}.
Proof. unfold set. apply lookup_insert_eq. Qed.

(** The loop of [cleanup], started from any map [acc0]: the keys of
    [cache] whose entry has expired are deleted from [acc0]. *)
Lemma cleanup_fold_lookup now cache (acc0 : gmap string (CacheEntry T)) key :
  map_fold (fun key entry acc =>
              if now >=? expiresAt entry then delete key acc else acc)
           acc0 cache !! key
  = match cache !! key with
    | Some entry => if now >=? expiresAt entry then None else acc0 !! key
    | None => acc0 !! key
    end.
Proof.
  revert key.
  apply (map_fold_weak_ind (fun r m => forall key,
    r !! key = match m !! key with
               | Some entry => if now >=? expiresAt entry then None else acc0 !! key
               | None => acc0 !! key
               end)).
  - intros key. now rewrite lookup_empty.
  - intros i x m r Hi IH key.
    destruct (decide (i = key)) as [-> | Hne].
    + rewrite lookup_insert_eq. destruct (now >=? expiresAt x).
      * apply lookup_delete_eq.
      * now rewrite IH, Hi.
    + rewrite lookup_insert_ne by done. destruct (now >=? expiresAt x).
      * rewrite lookup_delete_ne by done. apply IH.
      * apply IH.
Qed.

Lemma cleanup_lookup now cache key :
  cleanup now cache !! key
  = match cache !! key with
    | Some entry => if now >=? expiresAt entry then None else Some entry
    | None => None
    end.
Proof.
  unfold cleanup. rewrite cleanup_fold_lookup.
  destruct (cache !! key) as [entry|]; reflexivity.
Qed.

Lemma cleanup_lookup_Some now cache key entry :
  cleanup now cache !! key = Some entry <->
  cache !! key = Some entry /\ now < expiresAt entry.
Proof.
  rewrite cleanup_lookup. destruct (cache !! key) as [e|];
    [| split; [congruence | intros [? _]; congruence]].
  destruct (now >=? expiresAt e) eqn:E.
  - apply Z.geb_le in E. split; [congruence | intros [? ?]; simplify_eq; lia].
  - rewrite Z.geb_leb in E. apply Z.leb_gt in E.
    split; [intros ?; simplify_eq; done | now intros [-> _]].
Qed.

Lemma cleanup_idempotent now cache :
  cleanup now (cleanup now cache) = cleanup now cache.
Proof.
  apply map_eq. intros key. rewrite (cleanup_lookup now (cleanup now cache)).
  destruct (cleanup now cache !! key) as [entry|] eqn:E; [| reflexivity].
  apply cleanup_lookup_Some in E as [_ Hlt].
  destruct (now >=? expiresAt entry) eqn:E; [| reflexivity].
  apply Z.geb_le in E. lia.
Qed.

Lemma countEntries_sum now cache :
  (fst (countEntries now cache) + snd (countEntries now cache))%nat = size cache.
Proof.
  unfold countEntries.
  apply (map_fold_weak_ind (fun r m => (fst r + snd r)%nat = size m)).
  - now rewrite map_size_empty.
  - intros i x m r Hi IH. rewrite (map_size_insert_None i x m Hi).
    destruct (now <? expiresAt x); simpl; lia.
Qed.

End CacheFacts.

(** ** Facts about sequences of calls *)

Section LifecycleFacts.
Context {T : Type}.
Implicit Types (cache : gmap string (CacheEntry T)) (op : Op T) (ops : list (Op T)).

Lemma writes_dec key op : {writes key op} + {~ writes key op}.
Proof.
  destruct op as [? ? ?|type location ? ? ?|?| |?]; simpl; try (right; tauto).
  apply string_dec.
Defined.

Lemma writes_Forall_or_Exists key ops :
  Forall (fun op => ~ writes key op) ops \/ Exists (writes key) ops.
Proof.
  induction ops as [|op ops [IH | IH]].
  - left. constructor.
  - destruct (writes_dec key op) as [Hw | Hw].
    + right. now constructor.
    + left. now constructor.
  - right. now constructor 2.
Qed.

(** A call that is not a [set] on [key] leaves the entry of [key] as it
    is or removes it. *)
Lemma exec_lookup key op cache :
  ~ writes key op ->
  exec op cache !! key = None \/ exec op cache !! key = cache !! key.
Proof.
  intros Hw. destruct op as [type location now|type location d t1 t2|now| |now]; simpl.
  - unfold get. destruct (cache !! generateKey type location) as [entry|] eqn:E.
    + destruct (isValid now entry); simpl; [now right |].
      destruct (decide (generateKey type location = key)) as [<- | Hne].
      * left. apply lookup_delete_eq.
      * right. now apply lookup_delete_ne.
    + simpl. right. now rewrite delete_id.
  - right. unfold set. apply lookup_insert_ne. exact Hw.
  - rewrite cleanup_lookup. destruct (cache !! key) as [entry|]; [| now left].
    destruct (now >=? expiresAt entry); [now left | now right].
  - left. apply lookup_empty.
  - now right.
Qed.

Lemma run_lookup key ops cache :
  Forall (fun op => ~ writes key op) ops ->
  run ops cache !! key = None \/ run ops cache !! key = cache !! key.
Proof.
  intros H. revert cache. induction H as [|op ops Hop _ IH]; intros cache; simpl.
  - now right.
  - destruct (IH (exec op cache)) as [E | E]; [now left |].
    rewrite E. now apply exec_lookup.
Qed.

Lemma nondecreasingFrom_last t l t' :
  nondecreasingFrom t (l ++ [t']) -> t <= t'.
Proof.
  revert t. induction l as [|x l IH]; simpl; intros t [H1 H2]; [exact H1 |].
  specialize (IH x H2). lia.
Qed.

Lemma status_Stale_inv key now cache :
  status key now cache = Stale ->
  exists entry, cache !! key = Some entry /\ expiresAt entry <= now.
Proof.
  unfold status, isValid. destruct (cache !! key) as [entry|]; [| discriminate].
  destruct (now <? expiresAt entry) eqn:E; [discriminate |].
  apply Z.ltb_ge in E. eauto.
Qed.

Lemma status_Valid_inv key now cache :
  status key now cache = Valid ->
  exists entry, cache !! key = Some entry /\ now < expiresAt entry.
Proof.
  unfold status, isValid. destruct (cache !! key) as [entry|]; [| discriminate].
  destruct (now <? expiresAt entry) eqn:E; [| discriminate].
  apply Z.ltb_lt in E. eauto.
Qed.

End LifecycleFacts.

(** ** The properties stated by the specification *)

Section Properties.
Context {T : Type}.
Implicit Types (cache : gmap string (CacheEntry T)) (entry : CacheEntry T).

(** C1.  Round trip: a [set] followed at once by a [get], every reading
    of the clock being the same instant [now], returns the data that was
    stored and leaves the cache as [set] left it; the [get] may spell the
    kind and the location in any way that derives the same key.  The
    proviso that the time to live of the kind is positive needs no
    hypothesis: it holds for every kind ([getTTL_pos]). *)
Theorem set_get_roundtrip
    (type type' : string) (location location' : Location) (d : T) (now : Z) cache :
  generateKey type' location' = generateKey type location ->
  get type' location' now (set type location d now now cache)
  = (Some d, set type location d now now cache).
Proof.
  intros Hkey.
  rewrite (get_hit type' location' now _
             {| data := d; timestamp := now; expiresAt := now + getTTL type |}).
  - reflexivity.
  - rewrite Hkey. apply set_lookup.
  - simpl. pose proof (getTTL_pos type). lia.
Qed.

(** C2.  [get] returns absent exactly when the derived key has no entry
    or its entry has [expiresAt <= now].  In the expired case the entry is
    deleted, so that the total reported by [getStats] is one less than
    before the call; in the hit case the data of the entry is returned. *)
Theorem get_absent_iff (type : string) (location : Location) (now : Z) cache :
  (fst (get type location now cache) = None <->
     cache !! generateKey type location = None \/
     exists entry, cache !! generateKey type location = Some entry /\
                   expiresAt entry <= now) /\
  (forall entry,
     cache !! generateKey type location = Some entry ->
     expiresAt entry <= now ->
     snd (get type location now cache) = delete (generateKey type location) cache /\
     snd (get type location now cache) !! generateKey type location = None /\
     forall t,
       S (totalEntries (fst (getStats t (snd (get type location now cache)))))
       = totalEntries (fst (getStats t cache))) /\
  (forall entry,
     cache !! generateKey type location = Some entry ->
     now < expiresAt entry ->
     fst (get type location now cache) = Some (data entry)).
Proof.
  split; [| split].
  - destruct (cache !! generateKey type location) as [entry|] eqn:E.
    + destruct (Z.lt_ge_cases now (expiresAt entry)) as [Hlt | Hge].
      * rewrite (get_hit _ _ _ _ _ E Hlt). simpl. split; [discriminate |].
        intros [? | (e & ? & ?)]; [discriminate | simplify_eq; lia].
      * rewrite (get_stale _ _ _ _ _ E Hge). simpl. split; [| reflexivity].
        intros _. right. eauto.
    + rewrite (get_absent _ _ _ _ E). simpl. split; [now left | reflexivity].
  - intros entry E Hge. rewrite (get_stale _ _ _ _ _ E Hge). simpl.
    split; [reflexivity |]. split; [apply lookup_delete_eq |].
    intros _. rewrite map_size_delete, E. simpl.
    assert (size cache <> 0%nat); [| lia].
    intros Hz. apply map_size_empty_inv in Hz. subst cache.
    now rewrite lookup_empty in E.
  - intros entry E Hlt. now rewrite (get_hit _ _ _ _ _ E Hlt).
Qed.

(** C4 (amended).  The time to live is a function of the kind alone, with
    the values of the configuration and five minutes for any other kind.
    The entry written by [set] has [timestamp] equal to the first reading
    of the clock and [expiresAt] equal to the second reading plus the time
    to live of the kind, whatever the location, the payload and the cache;
    so [expiresAt = timestamp + getTTL type] when the two readings are
    equal. *)
Theorem ttl_by_kind :
  getTTL "weather" = 10 * 60 * 1000 /\
  getTTL "news" = 30 * 60 * 1000 /\
  getTTL "satellite" = 60 * 60 * 1000 /\
  getTTL "criticalIssues" = 15 * 60 * 1000 /\
  getTTL "environmental_data" = 5 * 60 * 1000 /\
  (forall type : string,
     type <> "weather" -> type <> "news" -> type <> "satellite" ->
     type <> "criticalIssues" -> type <> "environmental_data" ->
     getTTL type = 5 * 60 * 1000) /\
  (forall (type : string) (location : Location) (d : T) (t_stamp t_exp : Z) cache,
     exists entry,
       set type location d t_stamp t_exp cache !! generateKey type location = Some entry /\
       data entry = d /\
       timestamp entry = t_stamp /\
       expiresAt entry = t_exp + getTTL type /\
       (t_stamp = t_exp -> expiresAt entry = timestamp entry + getTTL type)).
Proof.
  repeat (split; [reflexivity |]). split.
  - intros type H1 H2 H3 H4 H5. unfold getTTL.
    apply String.eqb_neq in H1, H2, H3, H4, H5.
    now rewrite H1, H2, H3, H4, H5.
  - intros type location d t_stamp t_exp cache. eexists. split; [apply set_lookup |].
    simpl. repeat split. now intros ->.
Qed.

(** C5.  [cleanup] removes every entry with [expiresAt <= now], keeps
    every entry with [now < expiresAt] as it is (data, timestamp and
    expiresAt), creates none, and a second [cleanup] at the same instant
    changes nothing. *)
Theorem cleanup_exact (now : Z) cache :
  (forall key entry,
     cache !! key = Some entry -> expiresAt entry <= now ->
     cleanup now cache !! key = None) /\
  (forall key entry,
     cache !! key = Some entry -> now < expiresAt entry ->
     cleanup now cache !! key = Some entry) /\
  (forall key, cache !! key = None -> cleanup now cache !! key = None) /\
  cleanup now (cleanup now cache) = cleanup now cache.
Proof.
  repeat split.
  - intros key entry E Hle. rewrite cleanup_lookup, E.
    now apply Z.geb_le in Hle as ->.
  - intros key entry E Hlt. now apply cleanup_lookup_Some.
  - intros key E. now rewrite cleanup_lookup, E.
  - apply cleanup_idempotent.
Qed.

(** C6.  A second [set] on the same key replaces the entry of the first:
    the cache is the one the second [set] alone would have produced, the
    entry carries the second data and the stamps of the second call, and a
    [get] on that key before the expiry of that entry returns the second
    data. *)
Theorem set_overwrites
    (type type' : string) (location location' : Location) (d1 d2 : T)
    (s1 e1 s2 e2 : Z) cache :
  generateKey type' location' = generateKey type location ->
  set type' location' d2 s2 e2 (set type location d1 s1 e1 cache)
  = set type' location' d2 s2 e2 cache /\
  set type' location' d2 s2 e2 (set type location d1 s1 e1 cache)
    !! generateKey type location
  = Some {| data := d2; timestamp := s2; expiresAt := e2 + getTTL type' |} /\
  (forall (type'' : string) (location'' : Location) (now : Z),
     generateKey type'' location'' = generateKey type location ->
     now < e2 + getTTL type' ->
     fst (get type'' location'' now
            (set type' location' d2 s2 e2 (set type location d1 s1 e1 cache)))
     = Some d2).
Proof.
  intros Hkey.
  assert (Hl : set type' location' d2 s2 e2 (set type location d1 s1 e1 cache)
                 !! generateKey type location
               = Some {| data := d2; timestamp := s2; expiresAt := e2 + getTTL type' |}).
  { rewrite <- Hkey. apply set_lookup. }
  split; [| split].
  - unfold set. rewrite Hkey. apply insert_insert_eq.
  - exact Hl.
  - intros type'' location'' now Hkey'' Hlt.
    rewrite <- Hkey'' in Hl. now rewrite (get_hit _ _ _ _ _ Hl Hlt).
Qed.

(** C7.  After [clear] a [get] returns absent whatever the key and the
    time, and goes on doing so after any calls other than a [set] on that
    key; [getStats] reports no entry at all. *)
Theorem clear_empties cache :
  (forall (type : string) (location : Location) (now : Z),
     get type location now (clear cache) = (None, clear cache)) /\
  (forall (type : string) (location : Location) (now : Z) (ops : list (Op T)),
     Forall (fun op => ~ writes (generateKey type location) op) ops ->
     fst (get type location now (run ops (clear cache))) = None) /\
  (forall now : Z,
     fst (getStats now (clear cache))
     = {| totalEntries := 0; validEntries := 0; expiredEntries := 0 |}).
Proof.
  split; [| split].
  - intros type location now. apply get_absent. apply lookup_empty.
  - intros type location now ops Hops.
    rewrite get_absent; [reflexivity |].
    destruct (run_lookup _ ops (clear cache) Hops) as [E | E]; [exact E |].
    rewrite E. apply lookup_empty.
  - intros now. reflexivity.
Qed.

(** C10.  Reads do not change the cache: a [get] that hits returns the
    data and leaves the whole map as it was (so data, timestamp and
    expiresAt of every entry, and the set of keys), and [getStats] leaves
    the map as it was and reports a total that is the sum of the valid and
    the expired counts. *)
Theorem reads_do_not_mutate cache :
  (forall (type : string) (location : Location) (now : Z) entry,
     cache !! generateKey type location = Some entry ->
     now < expiresAt entry ->
     get type location now cache = (Some (data entry), cache)) /\
  (forall now : Z,
     snd (getStats now cache) = cache /\
     totalEntries (fst (getStats now cache))
     = (validEntries (fst (getStats now cache))
        + expiredEntries (fst (getStats now cache)))%nat).
Proof.
  split.
  - intros type location now entry E Hlt. now apply get_hit.
  - intros now. split; [reflexivity |]. simpl. symmetry. apply countEntries_sum.
Qed.

(** C3.  The key is a function of the kind, the city and the country
    that does not see case nor the length or make-up of runs of white
    space: two spellings of the three components derive the same key;
    every run of white space is replaced by exactly one separator; for
    every kind, what was stored under city [new   york], country [us] is
    returned under city [New York], country [US] (before it expires);
    and, for the same kind and country, city [New York City] and city
    [New York] have different keys. *)
Theorem key_normalization :
  (forall (type type' : string) (location location' : Location),
     sameSpelling type type' ->
     sameSpelling (city location) (city location') ->
     sameSpelling (country location) (country location') ->
     generateKey type location = generateKey type' location') /\
  (forall a w b : string,
     isRun w -> endsWithSpace false a = false -> startsWithSpace b = false ->
     replaceWhiteSpace "_" (a +:+ w +:+ b)
     = replaceWhiteSpace "_" a +:+ "_" +:+ replaceWhiteSpace "_" b) /\
  (forall (kind : string) (d : T) (t_stamp t_exp now : Z) cache,
     now < t_exp + getTTL kind ->
     fst (get kind {| city := "New York"; country := "US" |} now
            (set kind {| city := "new   york"; country := "us" |} d t_stamp t_exp cache))
     = Some d) /\
  (forall kind country : string,
     generateKey kind {| city := "New York City"; country := country |}
     <> generateKey kind {| city := "New York"; country := country |}).
Proof.
  split; [| split; [| split]].
  - intros type type' location location' Ht Hc Hk.
    rewrite !generateKey_normalize.
    now rewrite (normalize_sameSpelling _ _ Ht), (normalize_sameSpelling _ _ Hc),
      (normalize_sameSpelling _ _ Hk).
  - intros a w b Hw Ha Hb. unfold replaceWhiteSpace.
    rewrite !replaceRuns_app.
    destruct (replaceRuns_run "_" (endsWithSpace false a) w Hw) as [-> ->].
    now rewrite Ha, (replaceRuns_not_space "_" true b Hb).
  - intros kind d t_stamp t_exp now cache Hlt.
    rewrite (get_hit _ _ _ _
               {| data := d; timestamp := t_stamp; expiresAt := t_exp + getTTL kind |});
      [reflexivity | | exact Hlt].
    assert (E : generateKey kind {| city := "New York"; country := "US" |}
                = generateKey kind {| city := "new   york"; country := "us" |})
      by now rewrite !generateKey_normalize.
    rewrite E. apply set_lookup.
  - intros kind country H. rewrite !generateKey_normalize in H.
    apply (f_equal String.length) in H. rewrite !append_length in H.
    simpl in H. lia.
Qed.

(** C8.  The key does not determine the input: for every kind, city
    [a b] with country [c] and city [a] with country [b c] have the same
    key, which is [k_a_b_c] for the kind [k]; kind [environmental] with
    city [data paris] has the key of kind [environmental_data] with city
    [paris]; and what is stored under one of two such inputs is returned
    by a [get] under the other (before it expires). *)
Theorem key_not_injective :
  {| city := "a b"; country := "c" |} <> {| city := "a"; country := "b c" |} /\
  (forall k : string,
     generateKey k {| city := "a b"; country := "c" |}
     = generateKey k {| city := "a"; country := "b c" |}) /\
  generateKey "k" {| city := "a b"; country := "c" |} = "k_a_b_c" /\
  generateKey "k" {| city := "a"; country := "b c" |} = "k_a_b_c" /\
  (forall country : string,
     generateKey "environmental" {| city := "data paris"; country := country |}
     = generateKey "environmental_data" {| city := "paris"; country := country |}) /\
  (forall (k : string) (d : T) (t_stamp t_exp now : Z) cache,
     now < t_exp + getTTL k ->
     fst (get k {| city := "a"; country := "b c" |} now
            (set k {| city := "a b"; country := "c" |} d t_stamp t_exp cache))
     = Some d) /\
  (forall (country : string) (d : T) (t_stamp t_exp now : Z) cache,
     now < t_exp + getTTL "environmental" ->
     fst (get "environmental_data" {| city := "paris"; country := country |} now
            (set "environmental" {| city := "data paris"; country := country |}
               d t_stamp t_exp cache))
     = Some d).
Proof.
  assert (E1 : forall k : string,
            generateKey k {| city := "a b"; country := "c" |}
            = generateKey k {| city := "a"; country := "b c" |})
    by (intros k; now rewrite !generateKey_normalize).
  assert (E2 : forall country : string,
            generateKey "environmental" {| city := "data paris"; country := country |}
            = generateKey "environmental_data" {| city := "paris"; country := country |})
    by (intros country; now rewrite !generateKey_normalize).
  split; [discriminate |]. split; [exact E1 |].
  split; [reflexivity |]. split; [reflexivity |]. split; [exact E2 |]. split.
  - intros k d t_stamp t_exp now cache Hlt.
    rewrite (get_hit _ _ _ _
               {| data := d; timestamp := t_stamp; expiresAt := t_exp + getTTL k |});
      [reflexivity | | exact Hlt].
    rewrite <- E1. apply set_lookup.
  - intros country d t_stamp t_exp now cache Hlt.
    rewrite (get_hit _ _ _ _
               {| data := d; timestamp := t_stamp;
                  expiresAt := t_exp + getTTL "environmental" |});
      [reflexivity | | exact Hlt].
    rewrite <- E2. apply set_lookup.
Qed.

(** C9.  An entry that is stale at the reading [t0] is not valid at any
    later reading [t1] of a clock that never runs backwards, whatever
    calls were made in between, unless one of them is a [set] that derives
    the key of the entry. *)
Theorem stale_never_valid_again
    (key : string) (t0 t1 : Z) cache (ops : list (Op T)) :
  status key t0 cache = Stale ->
  nondecreasingFrom t0 (clockReadings ops ++ [t1]) ->
  (Forall (fun op => ~ writes key op) ops ->
   status key t1 (run ops cache) <> Valid) /\
  (status key t1 (run ops cache) = Valid -> Exists (writes key) ops).
Proof.
  intros Hstale Hclock.
  apply status_Stale_inv in Hstale as (entry & E & Hle).
  apply nondecreasingFrom_last in Hclock.
  assert (Hno : Forall (fun op => ~ writes key op) ops ->
                status key t1 (run ops cache) <> Valid).
  { intros Hops Hvalid.
    apply status_Valid_inv in Hvalid as (entry' & E' & Hlt).
    destruct (run_lookup key ops cache Hops) as [E'' | E'']; [congruence |].
    rewrite E'' in E'. simplify_eq. lia. }
  split; [exact Hno |].
  intros Hvalid. destruct (writes_Forall_or_Exists key ops) as [Hops | Hex];
    [| exact Hex].
  now destruct (Hno Hops).
Qed.

End Properties.

(** ** The properties on concrete calls *)

Lemma set_get_roundtrip_witness :
  generateKey "weather" {| city := "New York"; country := "US" |}
  = generateKey "weather" {| city := "new   york"; country := "us" |} /\
  get "weather" {| city := "New York"; country := "US" |} 1000
    (set "weather" {| city := "new   york"; country := "us" |} "sunny" 1000 1000 ∅)
  = (Some "sunny",
     set "weather" {| city := "new   york"; country := "us" |} "sunny" 1000 1000 ∅).
Proof.
  split; [reflexivity |].
  apply (set_get_roundtrip "weather" "weather"
           {| city := "new   york"; country := "us" |}
           {| city := "New York"; country := "US" |} "sunny" 1000 ∅).
  reflexivity.
Defined.

(** The scenario of the specification: a satellite summary stored at 0
    is returned one millisecond before the hour and is gone, with one
    entry less in the statistics, one millisecond after it. *)
Lemma get_absent_iff_witness :
  (set "satellite" {| city := "Lagos"; country := "NG" |} "clear" 0 0 ∅
     !! generateKey "satellite" {| city := "Lagos"; country := "NG" |}
   = Some {| data := "clear"; timestamp := 0; expiresAt := 3600000 |} /\
   3599999 < 3600000 /\ 3600000 <= 3600001) /\
  fst (get "satellite" {| city := "Lagos"; country := "NG" |} 3599999
         (set "satellite" {| city := "Lagos"; country := "NG" |} "clear" 0 0 ∅))
  = Some "clear" /\
  fst (get "satellite" {| city := "Lagos"; country := "NG" |} 3600001
         (set "satellite" {| city := "Lagos"; country := "NG" |} "clear" 0 0 ∅))
  = None /\
  S (totalEntries (fst (getStats 3600001
       (snd (get "satellite" {| city := "Lagos"; country := "NG" |} 3600001
          (set "satellite" {| city := "Lagos"; country := "NG" |} "clear" 0 0 ∅))))))
  = totalEntries (fst (getStats 3600001
       (set "satellite" {| city := "Lagos"; country := "NG" |} "clear" 0 0 ∅))).
Proof.
  assert (E : set "satellite" {| city := "Lagos"; country := "NG" |} "clear" 0 0 ∅
                !! generateKey "satellite" {| city := "Lagos"; country := "NG" |}
              = Some {| data := "clear"; timestamp := 0; expiresAt := 3600000 |})
    by apply set_lookup.
  assert (Hlt : 3599999 < 3600000) by reflexivity.
  assert (Hle : 3600000 <= 3600001) by discriminate.
  split; [auto |].
  destruct (get_absent_iff "satellite" {| city := "Lagos"; country := "NG" |} 3599999
              (set "satellite" {| city := "Lagos"; country := "NG" |} "clear" 0 0 ∅))
    as (_ & _ & Hhit).
  destruct (get_absent_iff "satellite" {| city := "Lagos"; country := "NG" |} 3600001
              (set "satellite" {| city := "Lagos"; country := "NG" |} "clear" 0 0 ∅))
    as (Hiff & Hexp & _).
  split; [exact (Hhit _ E Hlt) |].
  split; [apply Hiff; right; eauto |].
  destruct (Hexp _ E Hle) as (_ & _ & Hstats). apply Hstats.
Defined.

Lemma new_york_sameSpelling : sameSpelling "new   york" "New York".
Proof.
  apply spellUnit; [reflexivity | right; right; split; reflexivity |].
  repeat (apply spellUnit; [reflexivity | left; reflexivity |]).
  apply (spellRun "   " " " "york" "York"); try (split; [discriminate | reflexivity]);
    try reflexivity.
  apply spellUnit; [reflexivity | right; right; split; reflexivity |].
  repeat (apply spellUnit; [reflexivity | left; reflexivity |]).
  apply spellEmpty.
Defined.

Lemma us_sameSpelling : sameSpelling "us" "US".
Proof.
  repeat (apply spellUnit; [reflexivity | right; right; split; reflexivity |]).
  apply spellEmpty.
Defined.

Lemma weather_sameSpelling : sameSpelling "weather" "weather".
Proof.
  repeat (apply spellUnit; [reflexivity | left; reflexivity |]).
  apply spellEmpty.
Defined.

Lemma key_normalization_witness :
  (sameSpelling "new   york" "New York" /\ sameSpelling "us" "US" /\
   isRun "   " /\ 5 < 0 + getTTL "news") /\
  generateKey "weather" {| city := "new   york"; country := "us" |}
  = generateKey "weather" {| city := "New York"; country := "US" |} /\
  replaceWhiteSpace "_" ("new" +:+ "   " +:+ "york")
  = replaceWhiteSpace "_" "new" +:+ "_" +:+ replaceWhiteSpace "_" "york" /\
  fst (get "news" {| city := "New York"; country := "US" |} 5
         (set "news" {| city := "new   york"; country := "us" |} "headline" 0 0 ∅))
  = Some "headline" /\
  generateKey "weather" {| city := "New York City"; country := "US" |}
  <> generateKey "weather" {| city := "New York"; country := "US" |}.
Proof.
  assert (Hrun : isRun "   ") by (split; [discriminate | reflexivity]).
  assert (Hlt : 5 < 0 + getTTL "news") by reflexivity.
  split; [auto using new_york_sameSpelling, us_sameSpelling |].
  destruct (@key_normalization string) as (Hsame & Hruns & Hget & Hneq).
  split; [| split; [| split]].
  - apply (Hsame "weather" "weather"
             {| city := "new   york"; country := "us" |}
             {| city := "New York"; country := "US" |});
      [exact weather_sameSpelling | exact new_york_sameSpelling | exact us_sameSpelling].
  - apply (Hruns "new" "   " "york" Hrun); reflexivity.
  - apply (Hget "news" "headline" 0 0 5 ∅ Hlt).
  - apply Hneq.
Defined.

(** C4, as the specification states it, fails when the clock advances
    between the two readings that [set] takes: with readings 0 and 1 the
    entry has [timestamp = 0] and [expiresAt = 600001], not 600000. *)
Lemma set_expiry_counterexample :
  exists entry : CacheEntry string,
    set "weather" {| city := "Lagos"; country := "NG" |} "sunny" 0 1 ∅
      !! generateKey "weather" {| city := "Lagos"; country := "NG" |}
    = Some entry /\
    timestamp entry = 0 /\
    expiresAt entry = 600001 /\
    expiresAt entry <> timestamp entry + getTTL "weather".
Proof.
  eexists. split; [apply set_lookup |]. simpl.
  split; [reflexivity |]. split; [reflexivity |]. discriminate.
Qed.

Lemma ttl_by_kind_witness :
  getTTL "humidity" = 5 * 60 * 1000 /\
  exists entry : CacheEntry string,
    set "news" {| city := "Lagos"; country := "NG" |} "headline" 7 7 ∅
      !! generateKey "news" {| city := "Lagos"; country := "NG" |} = Some entry /\
    expiresAt entry = timestamp entry + getTTL "news".
Proof.
  destruct (@ttl_by_kind string) as (_ & _ & _ & _ & _ & Hdefault & Hset).
  split.
  - apply Hdefault; discriminate.
  - destruct (Hset "news" {| city := "Lagos"; country := "NG" |} "headline" 7 7 ∅)
      as (entry & E & _ & _ & _ & Heq).
    exists entry. split; [exact E | apply Heq; reflexivity].
Defined.

(** A satellite summary stored at 0 and a headline stored at 3600000,
    swept one millisecond later: the summary goes, the headline stays. *)
Lemma cleanup_exact_witness :
  (3600000 <= 3600001 /\ 3600001 < 5400000) /\
  cleanup 3600001
    (set "news" {| city := "Lagos"; country := "NG" |} "headline" 3600000 3600000
       (set "satellite" {| city := "Lagos"; country := "NG" |} "clear" 0 0 ∅))
    !! "satellite_lagos_ng" = None /\
  cleanup 3600001
    (set "news" {| city := "Lagos"; country := "NG" |} "headline" 3600000 3600000
       (set "satellite" {| city := "Lagos"; country := "NG" |} "clear" 0 0 ∅))
    !! "news_lagos_ng"
  = Some {| data := "headline"; timestamp := 3600000; expiresAt := 5400000 |}.
Proof.
  split; [split; [discriminate | reflexivity] |].
  destruct (cleanup_exact 3600001
              (set "news" {| city := "Lagos"; country := "NG" |} "headline" 3600000 3600000
                 (set "satellite" {| city := "Lagos"; country := "NG" |} "clear" 0 0 ∅)))
    as (Hgone & Hkept & _ & _).
  split.
  - apply (Hgone "satellite_lagos_ng"
             {| data := "clear"; timestamp := 0; expiresAt := 3600000 |});
      [reflexivity | discriminate].
  - apply (Hkept "news_lagos_ng"
             {| data := "headline"; timestamp := 3600000; expiresAt := 5400000 |});
      reflexivity.
Defined.

Lemma set_overwrites_witness :
  generateKey "weather" {| city := "New York"; country := "US" |}
  = generateKey "weather" {| city := "new   york"; country := "us" |} /\
  set "weather" {| city := "New York"; country := "US" |} "rain" 50 51
    (set "weather" {| city := "new   york"; country := "us" |} "sunny" 0 0 ∅)
    !! generateKey "weather" {| city := "new   york"; country := "us" |}
  = Some {| data := "rain"; timestamp := 50; expiresAt := 51 + getTTL "weather" |} /\
  fst (get "weather" {| city := "new york"; country := "us" |} 600050
         (set "weather" {| city := "New York"; country := "US" |} "rain" 50 51
            (set "weather" {| city := "new   york"; country := "us" |} "sunny" 0 0 ∅)))
  = Some "rain".
Proof.
  assert (Hkey : generateKey "weather" {| city := "New York"; country := "US" |}
                 = generateKey "weather" {| city := "new   york"; country := "us" |})
    by reflexivity.
  split; [exact Hkey |].
  destruct (set_overwrites "weather" "weather"
              {| city := "new   york"; country := "us" |}
              {| city := "New York"; country := "US" |}
              "sunny" "rain" 0 0 50 51 ∅ Hkey) as (_ & Hentry & Hget).
  split; [exact Hentry |].
  apply (Hget "weather" {| city := "new york"; country := "us" |} 600050);
    reflexivity.
Defined.

Lemma clear_empties_witness :
  Forall (fun op : Op string =>
            ~ writes (generateKey "news" {| city := "Lagos"; country := "NG" |}) op)
    [OpGet "news" {| city := "Lagos"; country := "NG" |} 5;
     OpSet "weather" {| city := "Lagos"; country := "NG" |} "sunny" 6 6;
     OpCleanup 7] /\
  fst (get "news" {| city := "Lagos"; country := "NG" |} 8
         (run [OpGet "news" {| city := "Lagos"; country := "NG" |} 5;
               OpSet "weather" {| city := "Lagos"; country := "NG" |} "sunny" 6 6;
               OpCleanup 7]
            (clear (set "news" {| city := "Lagos"; country := "NG" |} "headline" 0 0 ∅))))
  = None.
Proof.
  assert (Hops : Forall (fun op : Op string =>
            ~ writes (generateKey "news" {| city := "Lagos"; country := "NG" |}) op)
    [OpGet "news" {| city := "Lagos"; country := "NG" |} 5;
     OpSet "weather" {| city := "Lagos"; country := "NG" |} "sunny" 6 6;
     OpCleanup 7]).
  { repeat constructor; simpl; try tauto. discriminate. }
  split; [exact Hops |].
  destruct (clear_empties
              (set "news" {| city := "Lagos"; country := "NG" |} "headline" 0 0 ∅))
    as (_ & Hrun & _).
  apply (Hrun "news" {| city := "Lagos"; country := "NG" |} 8 _ Hops).
Defined.

Lemma key_not_injective_witness :
  (5 < 0 + getTTL "k" /\ 5 < 0 + getTTL "environmental") /\
  fst (get "k" {| city := "a"; country := "b c" |} 5
         (set "k" {| city := "a b"; country := "c" |} "stored" 0 0 ∅))
  = Some "stored" /\
  fst (get "environmental_data" {| city := "paris"; country := "fr" |} 5
         (set "environmental" {| city := "data paris"; country := "fr" |} "stored" 0 0 ∅))
  = Some "stored".
Proof.
  assert (H1 : 5 < 0 + getTTL "k") by reflexivity.
  assert (H2 : 5 < 0 + getTTL "environmental") by reflexivity.
  split; [auto |].
  destruct (@key_not_injective string) as (_ & _ & _ & _ & _ & Hab & Henv).
  split.
  - apply (Hab "k" "stored" 0 0 5 ∅ H1).
  - apply (Henv "fr" "stored" 0 0 5 ∅ H2).
Defined.

(** A summary that went stale at 3600000 is looked at by [getStats],
    survives a [get] on another key, and is judged again later. *)
Lemma stale_never_valid_again_witness :
  (status "satellite_lagos_ng" 3600000
     (set "satellite" {| city := "Lagos"; country := "NG" |} "clear" 0 0 ∅) = Stale /\
   nondecreasingFrom 3600000
     (clockReadings
        [OpGetStats 3600001;
         OpGet "news" {| city := "Lagos"; country := "NG" |} 3600002;
         OpSet "news" {| city := "Lagos"; country := "NG" |} "headline" 3600003 3600003]
      ++ [3600004]) /\
   Forall (fun op : Op string => ~ writes "satellite_lagos_ng" op)
     [OpGetStats 3600001;
      OpGet "news" {| city := "Lagos"; country := "NG" |} 3600002;
      OpSet "news" {| city := "Lagos"; country := "NG" |} "headline" 3600003 3600003]) /\
  status "satellite_lagos_ng" 3600004
    (run [OpGetStats 3600001;
          OpGet "news" {| city := "Lagos"; country := "NG" |} 3600002;
          OpSet "news" {| city := "Lagos"; country := "NG" |} "headline" 3600003 3600003]
       (set "satellite" {| city := "Lagos"; country := "NG" |} "clear" 0 0 ∅))
  <> Valid.
Proof.
  assert (Hstale : status "satellite_lagos_ng" 3600000
     (set "satellite" {| city := "Lagos"; country := "NG" |} "clear" 0 0 ∅) = Stale)
    by reflexivity.
  assert (Hclock : nondecreasingFrom 3600000
     (clockReadings
        [OpGetStats 3600001;
         OpGet "news" {| city := "Lagos"; country := "NG" |} 3600002;
         OpSet "news" {| city := "Lagos"; country := "NG" |} "headline" 3600003 3600003]
      ++ [3600004])) by (simpl; lia).
  assert (Hops : Forall (fun op : Op string => ~ writes "satellite_lagos_ng" op)
     [OpGetStats 3600001;
      OpGet "news" {| city := "Lagos"; country := "NG" |} 3600002;
      OpSet "news" {| city := "Lagos"; country := "NG" |} "headline" 3600003 3600003]).
  { repeat constructor; simpl; try tauto. discriminate. }
  split; [auto |].
  destruct (stale_never_valid_again "satellite_lagos_ng" 3600000 3600004 _ _ Hstale Hclock)
    as [Hno _].
  exact (Hno Hops).
Defined.

Lemma reads_do_not_mutate_witness :
  (set "satellite" {| city := "Lagos"; country := "NG" |} "clear" 0 0 ∅
     !! generateKey "satellite" {| city := "Lagos"; country := "NG" |}
   = Some {| data := "clear"; timestamp := 0; expiresAt := 3600000 |} /\
   3599999 < 3600000) /\
  get "satellite" {| city := "Lagos"; country := "NG" |} 3599999
    (set "satellite" {| city := "Lagos"; country := "NG" |} "clear" 0 0 ∅)
  = (Some "clear", set "satellite" {| city := "Lagos"; country := "NG" |} "clear" 0 0 ∅).
Proof.
  assert (E : set "satellite" {| city := "Lagos"; country := "NG" |} "clear" 0 0 ∅
                !! generateKey "satellite" {| city := "Lagos"; country := "NG" |}
              = Some {| data := "clear"; timestamp := 0; expiresAt := 3600000 |})
    by apply set_lookup.
  assert (Hlt : 3599999 < 3600000) by reflexivity.
  split; [auto |].
  destruct (reads_do_not_mutate
              (set "satellite" {| city := "Lagos"; country := "NG" |} "clear" 0 0 ∅))
    as [Hget _].
  exact (Hget "satellite" {| city := "Lagos"; country := "NG" |} 3599999 _ E Hlt).
Defined.

(** * Further properties of the cache *)

(** ** How [get], [set] and [cleanup] compose *)

Section Composition.
Context {T : Type}.
Implicit Types (cache : gmap string (CacheEntry T)) (entry : CacheEntry T).

(** What [get] returns depends on the entry of the key alone. *)
Lemma get_result type location now cache :
  fst (get type location now cache)
  = match cache !! generateKey type location with
    | Some entry => if isValid now entry then Some (data entry) else None
    | None => None
    end.
Proof.
  unfold get. destruct (cache !! generateKey type location) as [entry|];
    [destruct (isValid now entry) |]; reflexivity.
Qed.

(** The cache that [get] leaves differs from the one it found at most at
    the key it looked up. *)
Lemma get_cache_lookup type location now cache k :
  k <> generateKey type location ->
  snd (get type location now cache) !! k = cache !! k.
Proof.
  intros Hk. unfold get. destruct (cache !! generateKey type location) as [entry|];
    [destruct (isValid now entry) |]; simpl;
    try reflexivity; now apply lookup_delete_ne.
Qed.

(** X1.  A [get] repeated at the same instant returns the same result
    and leaves the same cache: a hit does not consume the entry, a miss
    has nothing more to delete. *)
Theorem get_twice (type : string) (location : Location) (now : Z) cache :
  get type location now (snd (get type location now cache))
  = get type location now cache.
Proof.
  destruct (cache !! generateKey type location) as [entry|] eqn:E.
  - destruct (Z.lt_ge_cases now (expiresAt entry)) as [Hlt | Hge].
    + rewrite (get_hit _ _ _ _ _ E Hlt). simpl. apply (get_hit _ _ _ _ _ E Hlt).
    + rewrite (get_stale _ _ _ _ _ E Hge). simpl.
      rewrite get_absent by apply lookup_delete_eq. reflexivity.
  - rewrite (get_absent _ _ _ _ E). simpl. apply (get_absent _ _ _ _ E).
Qed.

(** X2.  After a miss, every later [get] that derives the same key
    misses too, whatever the clock reads, and changes nothing: the miss
    has removed the entry. *)
Theorem miss_is_sticky
    (type type' : string) (location location' : Location) (now now' : Z) cache :
  generateKey type' location' = generateKey type location ->
  fst (get type location now cache) = None ->
  get type' location' now' (snd (get type location now cache))
  = (None, snd (get type location now cache)).
Proof.
  intros Hkey Hmiss. apply get_absent. rewrite Hkey.
  revert Hmiss. unfold get.
  destruct (cache !! generateKey type location) as [entry|] eqn:E.
  - destruct (isValid now entry); simpl; [discriminate |].
    intros _. apply lookup_delete_eq.
  - simpl. intros _. now rewrite delete_id.
Qed.

(** X3.  Calls on one key do not show on another: after a [set] or a
    [get] that derives a different key, a [get] returns what it would
    have returned without that call. *)
Theorem other_keys_untouched
    (type type' : string) (location location' : Location) (d : T)
    (t_stamp t_exp now now' : Z) cache :
  generateKey type' location' <> generateKey type location ->
  fst (get type' location' now' (set type location d t_stamp t_exp cache))
  = fst (get type' location' now' cache) /\
  fst (get type' location' now' (snd (get type location now cache)))
  = fst (get type' location' now' cache).
Proof.
  intros Hne. rewrite !get_result. split.
  - unfold set. now rewrite lookup_insert_ne by congruence.
  - now rewrite get_cache_lookup.
Qed.

(** A [get] after a [set] on its key: the data or nothing, by the clock. *)
Lemma get_set_result
    (type type' : string) (location location' : Location) (d : T)
    (t_stamp t_exp now : Z) cache :
  generateKey type' location' = generateKey type location ->
  fst (get type' location' now (set type location d t_stamp t_exp cache))
  = if now <? t_exp + getTTL type then Some d else None.
Proof. intros Hkey. now rewrite get_result, Hkey, set_lookup. Qed.

(** X4.  An entry lives exactly its time to live, counted from the
    second reading of the clock in [set]: a [get] that derives the key
    returns the data at every reading before [t_exp + getTTL type] and is
    a miss at that reading and after it. *)
Theorem lifetime_exact
    (type type' : string) (location location' : Location) (d : T)
    (t_stamp t_exp now : Z) cache :
  generateKey type' location' = generateKey type location ->
  (fst (get type' location' now (set type location d t_stamp t_exp cache)) = Some d
   <-> now < t_exp + getTTL type) /\
  (fst (get type' location' now (set type location d t_stamp t_exp cache)) = None
   <-> t_exp + getTTL type <= now).
Proof.
  intros Hkey. rewrite (get_set_result _ _ _ _ _ _ _ _ _ Hkey).
  destruct (Z.ltb_spec now (t_exp + getTTL type)); split; split;
    try reflexivity; try discriminate; try lia; intros; lia.
Qed.

(** The times to live lie between five minutes and one hour. *)
Lemma getTTL_bounds (type : string) :
  5 * 60 * 1000 <= getTTL type <= 60 * 60 * 1000.
Proof.
  unfold getTTL.
  repeat (destruct (String.eqb type _); [vm_compute; split; discriminate |]).
  vm_compute; split; discriminate.
Qed.

(** X5.  Whatever the kind, an entry is served for at least five
    minutes after it was written and is never served an hour or more
    after it. *)
Theorem lifetime_bounds
    (type : string) (location : Location) (d : T) (t_stamp t_exp now : Z) cache :
  (now < t_exp + 5 * 60 * 1000 ->
   fst (get type location now (set type location d t_stamp t_exp cache)) = Some d) /\
  (t_exp + 60 * 60 * 1000 <= now ->
   fst (get type location now (set type location d t_stamp t_exp cache)) = None).
Proof.
  pose proof (getTTL_bounds type) as [Hlo Hhi].
  rewrite (get_set_result type type location location d t_stamp t_exp now cache eq_refl).
  destruct (Z.ltb_spec now (t_exp + getTTL type)); split; intros Hnow;
    try reflexivity; lia.
Qed.

(** X7.  The sweep does not show through [get]: at any reading of the
    clock not earlier than the one of [cleanup], a [get] returns what it
    would have returned had [cleanup] not run. *)
Theorem cleanup_invisible_to_get
    (type : string) (location : Location) (now now' : Z) cache :
  now <= now' ->
  fst (get type location now' (cleanup now cache))
  = fst (get type location now' cache).
Proof.
  intros Hle. rewrite !get_result, cleanup_lookup.
  destruct (cache !! generateKey type location) as [entry|]; [| reflexivity].
  destruct (now >=? expiresAt entry) eqn:E; [| reflexivity].
  apply Z.geb_le in E. unfold isValid.
  destruct (Z.ltb_spec now' (expiresAt entry)); [lia | reflexivity].
Qed.

End Composition.

(** ** The kind decides the time to live by its exact spelling *)

Section KindSpelling.

Lemma normalize_recognized (known : string) :
  known ∈ recognizedKinds ->
  known = "weather" \/ known = "news" \/ known = "satellite" \/
  known = "criticalIssues" \/ known = "environmental_data".
Proof.
  unfold recognizedKinds. rewrite !elem_of_cons, elem_of_nil. tauto.
Qed.

(** X6.  The key does not see the case of the kind, the time to live
    does: a kind that is another spelling of a recognised kind, but not
    that kind letter for letter, writes to the key of the recognised kind
    and gets the default five minutes. *)
Theorem respelled_kind_gets_default_ttl (known type : string) :
  known ∈ recognizedKinds ->
  sameSpelling type known ->
  type <> known ->
  (forall location : Location, generateKey type location = generateKey known location) /\
  getTTL type = 5 * 60 * 1000.
Proof.
  intros Hknown Hsame Hne.
  pose proof (normalize_sameSpelling _ _ Hsame) as Hnorm.
  split.
  - intros location. rewrite !generateKey_normalize. now rewrite Hnorm.
  - assert (Hother : forall other : string,
              normalize other <> normalize known -> String.eqb type other = false).
    { intros other Hd. apply String.eqb_neq. intros ->. now apply Hd. }
    apply String.eqb_neq in Hne. unfold getTTL.
    destruct (normalize_recognized known Hknown) as [-> | [-> | [-> | [-> | ->]]]];
      rewrite ?Hne, ?Hother by (vm_compute; discriminate); reflexivity.
Qed.

End KindSpelling.

(** ** The sweep and the statistics *)

Section SweepStats.
Context {T : Type}.
Implicit Types (cache : gmap string (CacheEntry T)) (entry : CacheEntry T).

Lemma cleanup_insert now cache k entry :
  cache !! k = None ->
  cleanup now (<[k := entry]> cache)
  = if now <? expiresAt entry then <[k := entry]> (cleanup now cache)
    else cleanup now cache.
Proof.
  intros Hk. apply map_eq. intros j. rewrite cleanup_lookup.
  assert (G : forall a b : Z, (a >=? b) = negb (a <? b)).
  { intros a b. now rewrite Z.geb_leb, Z.ltb_antisym, Bool.negb_involutive. }
  destruct (decide (k = j)) as [<- | Hne].
  - rewrite lookup_insert_eq, G.
    destruct (now <? expiresAt entry); simpl.
    + now rewrite lookup_insert_eq.
    + now rewrite cleanup_lookup, Hk.
  - rewrite lookup_insert_ne by done.
    destruct (now <? expiresAt entry).
    + rewrite lookup_insert_ne by done. now rewrite cleanup_lookup.
    + now rewrite cleanup_lookup.
Qed.

(** The count of valid entries is the number of entries the sweep keeps. *)
Lemma countEntries_cleanup now cache :
  fst (countEntries now cache) = size (cleanup now cache).
Proof.
  unfold countEntries.
  apply (map_fold_weak_ind (fun r m => fst r = size (cleanup now m))).
  - reflexivity.
  - intros i x m r Hi IH. rewrite (cleanup_insert now m i x Hi).
    destruct (now <? expiresAt x); simpl; [| exact IH].
    rewrite map_size_insert_None; [now rewrite IH |].
    now rewrite cleanup_lookup, Hi.
Qed.

(** X8.  The two loops agree: what [getStats] counts as valid is what
    [cleanup] at the same instant keeps, what it counts as expired is what
    [cleanup] removes, and right after [cleanup] every entry is counted
    valid and none expired. *)
Theorem stats_agree_with_cleanup (now : Z) cache :
  validEntries (fst (getStats now cache)) = size (cleanup now cache) /\
  (expiredEntries (fst (getStats now cache)) + size (cleanup now cache))%nat
  = size cache /\
  fst (getStats now (cleanup now cache))
  = {| totalEntries := validEntries (fst (getStats now cache));
       validEntries := validEntries (fst (getStats now cache));
       expiredEntries := 0 |}.
Proof.
  pose proof (countEntries_sum now cache) as Hsum.
  pose proof (countEntries_cleanup now cache) as Hvalid.
  pose proof (countEntries_sum now (cleanup now cache)) as Hsum'.
  pose proof (countEntries_cleanup now (cleanup now cache)) as Hvalid'.
  rewrite cleanup_idempotent in Hvalid'.
  simpl. split; [exact Hvalid |]. split; [lia |].
  unfold getStats. simpl. f_equal; lia.
Qed.

End SweepStats.

(** ** What sequences of calls keep *)

Section Sequences.
Context {T : Type}.
Implicit Types (cache : gmap string (CacheEntry T)) (op : Op T) (ops : list (Op T)).

(** X9.  No call makes up a hit: if, after calls none of which is a
    [set] on the key, the key has an entry, it is the entry that was there
    before them; and a [get] that hits after them would have hit before
    them, at the same reading of the clock, with the same data. *)
Theorem hits_come_from_sets
    (type : string) (location : Location) (now : Z) cache ops :
  Forall (fun op => ~ writes (generateKey type location) op) ops ->
  (forall entry,
     run ops cache !! generateKey type location = Some entry ->
     cache !! generateKey type location = Some entry) /\
  (forall d : T,
     fst (get type location now (run ops cache)) = Some d ->
     fst (get type location now cache) = Some d).
Proof.
  intros Hops.
  destruct (run_lookup _ ops cache Hops) as [E | E]; split.
  - intros entry. rewrite E. discriminate.
  - intros d. rewrite get_result, E. discriminate.
  - intros entry. now rewrite E.
  - intros d. now rewrite !get_result, E.
Qed.

Lemma cleanup_size now cache : (size (cleanup now cache) <= size cache)%nat.
Proof.
  rewrite <- countEntries_cleanup, <- (countEntries_sum now cache). lia.
Qed.

Lemma exec_size op cache :
  (size (exec op cache) <= size cache + (if isSet op then 1 else 0))%nat.
Proof.
  destruct op as [type location now|type location d t1 t2|now| |now]; simpl.
  - unfold get. destruct (cache !! generateKey type location) as [entry|] eqn:E;
      [destruct (isValid now entry) |]; simpl; rewrite ?map_size_delete, ?E; simpl; lia.
  - unfold set. rewrite map_size_insert.
    destruct (cache !! generateKey type location); simpl; lia.
  - pose proof (cleanup_size now cache). lia.
  - unfold clear. rewrite map_size_empty. lia.
  - lia.
Qed.

(** X15.  The cache grows by [set] only, one entry at a time: after any
    calls it holds at most as many entries more than before as there were
    calls of [set]. *)
Theorem size_bounded_by_sets cache ops :
  (size (run ops cache) <= size cache + countSets ops)%nat.
Proof.
  revert cache. induction ops as [|op ops IH]; intros cache; simpl; [lia |].
  pose proof (IH (exec op cache)). pose proof (exec_size op cache). lia.
Qed.

End Sequences.

(** ** The shape of the keys *)

Section KeyShape.

Lemma allUnits_app (p : ascii -> bool) (a b : string) :
  allUnits p (a +:+ b) = allUnits p a && allUnits p b.
Proof.
  induction a as [|x a IH]; [reflexivity |].
  rewrite append_cons. simpl. now rewrite IH, andb_assoc.
Qed.

Lemma occurrences_app (c : ascii) (a b : string) :
  occurrences c (a +:+ b) = (occurrences c a + occurrences c b)%nat.
Proof.
  induction a as [|x a IH]; [reflexivity |].
  rewrite append_cons. simpl. rewrite IH. lia.
Qed.

Lemma isUpper_lower (c : ascii) : isUpper (lowerChar c) = false.
Proof.
  destruct c as [[] [] [] [] [] [] [] []]; vm_compute; reflexivity.
Qed.

Lemma replaceRuns_plain (r : bool) (s : string) :
  allUnits plainUnit (replaceRuns "_" r (toLowerCase s)) = true.
Proof.
  revert r. induction s as [|x s IH]; intros r; simpl; [reflexivity |].
  destruct (isWhiteSpace (lowerChar x)) eqn:E.
  - destruct r; [apply IH |].
    change ("_" +:+ replaceRuns "_" true (toLowerCase s))
      with (String "_" (replaceRuns "_" true (toLowerCase s))).
    simpl. apply IH.
  - simpl. unfold plainUnit at 1. now rewrite E, isUpper_lower, IH.
Qed.

Lemma generateKey_plain (type : string) (location : Location) :
  allUnits plainUnit (generateKey type location) = true.
Proof. apply replaceRuns_plain. Qed.

Lemma generateKey_separators (type : string) (location : Location) :
  (2 <= occurrences "_" (generateKey type location))%nat.
Proof.
  rewrite generateKey_normalize, !occurrences_app.
  change (occurrences "_" "_") with 1%nat. lia.
Qed.

End KeyShape.

Section ReachableKeys.
Context {T : Type}.
Implicit Types (cache : gmap string (CacheEntry T)) (op : Op T) (ops : list (Op T)).

Lemma exec_keysDerived op cache : keysDerived cache -> keysDerived (exec op cache).
Proof.
  intros Hinv k Hk.
  destruct (writes_dec k op) as [Hw | Hw].
  - destruct op; simpl in Hw; try contradiction. eauto.
  - destruct (exec_lookup k op cache Hw) as [E | E]; rewrite E in Hk.
    + now destruct Hk.
    + now apply Hinv.
Qed.

Lemma run_keysDerived ops cache : keysDerived cache -> keysDerived (run ops cache).
Proof.
  revert cache. induction ops as [|op ops IH]; intros cache Hinv; simpl; [exact Hinv |].
  apply IH. now apply exec_keysDerived.
Qed.

(** X10.  The keys of a cache that started empty are all derived keys:
    each is the key of some kind and location, holds no white space and no
    capital letter, and has at least two separators. *)
Theorem reachable_keys_shape ops (k : string) :
  is_Some (run ops (∅ : gmap string (CacheEntry T)) !! k) ->
  (exists (type : string) (location : Location), k = generateKey type location) /\
  allUnits plainUnit k = true /\
  (2 <= occurrences "_" k)%nat.
Proof.
  intros Hk.
  assert (Hempty : keysDerived (∅ : gmap string (CacheEntry T))).
  { intros j Hj. rewrite lookup_empty in Hj. now destruct Hj. }
  destruct (run_keysDerived ops ∅ Hempty k Hk) as (type & location & ->).
  split; [eauto |]. split; [apply generateKey_plain | apply generateKey_separators].
Qed.

End ReachableKeys.

(** ** The debugging view *)

Section SplitFacts.

Lemma split_sep (sep : ascii) (s : string) :
  split sep (String sep s) = (EmptyString, fst (split sep s) :: snd (split sep s)).
Proof. simpl. destruct (split sep s). now rewrite Ascii.eqb_refl. Qed.

Lemma split_other (sep c : ascii) (s : string) :
  Ascii.eqb c sep = false ->
  split sep (String c s) = (String c (fst (split sep s)), snd (split sep s)).
Proof. intros H. simpl. destruct (split sep s). now rewrite H. Qed.

(** The first piece ends at the first separator. *)
Lemma split_app (sep : ascii) (a b : string) :
  allUnits (fun c => negb (Ascii.eqb c sep)) a = true ->
  split sep (a +:+ String sep b) = (a, fst (split sep b) :: snd (split sep b)).
Proof.
  induction a as [|x a IH]; intros Ha.
  - rewrite append_nil. apply split_sep.
  - simpl in Ha. apply andb_true_iff in Ha as [Hx Ha].
    apply negb_true_iff in Hx.
    rewrite append_cons, (split_other sep x _ Hx), (IH Ha). reflexivity.
Qed.

Lemma split_others_length (sep : ascii) (s : string) :
  length (snd (split sep s)) = occurrences sep s.
Proof.
  induction s as [|x s IH]; [reflexivity |].
  simpl. destruct (split sep s) as [piece pieces].
  destruct (Ascii.eqb x sep); simpl in *; lia.
Qed.

Lemma wordUnit_not_sep (s : string) :
  allUnits wordUnit s = true ->
  allUnits (fun c => negb (Ascii.eqb c "_")) s = true.
Proof.
  induction s as [|x s IH]; simpl; [reflexivity |].
  intros H. apply andb_true_iff in H as [Hx Hs]. rewrite (IH Hs).
  unfold wordUnit in Hx. apply andb_true_iff in Hx as [_ ->]. reflexivity.
Qed.

Lemma wordUnit_lower (c : ascii) : wordUnit (lowerChar c) = wordUnit c.
Proof.
  destruct c as [[] [] [] [] [] [] [] []]; vm_compute; reflexivity.
Qed.

Lemma simpleWord_lower (s : string) : simpleWord s -> simpleWord (toLowerCase s).
Proof.
  unfold simpleWord. induction s as [|x s IH]; simpl; [reflexivity |].
  intros H. apply andb_true_iff in H as [Hx Hs].
  now rewrite wordUnit_lower, Hx, (IH Hs).
Qed.

(** Without white space there is nothing to replace. *)
Lemma replaceRuns_simpleWord (r : bool) (s : string) :
  simpleWord s -> replaceRuns "_" r s = s.
Proof.
  unfold simpleWord. revert r. induction s as [|x s IH]; intros r; simpl; [reflexivity |].
  intros H. apply andb_true_iff in H as [Hx Hs].
  unfold wordUnit in Hx. apply andb_true_iff in Hx as [Hx _].
  apply negb_true_iff in Hx. now rewrite Hx, (IH _ Hs).
Qed.

Lemma normalize_simpleWord (s : string) :
  simpleWord s -> normalize s = toLowerCase s.
Proof.
  intros H. unfold normalize, replaceWhiteSpace.
  apply replaceRuns_simpleWord. now apply simpleWord_lower.
Qed.

Lemma endsWithSpace_simpleWord (r : bool) (a : string) :
  simpleWord a -> endsWithSpace r a = true -> r = true /\ a = EmptyString.
Proof.
  unfold simpleWord. revert r.
  induction a as [|x a IH]; intros r H1 H2; simpl in *; [auto |].
  apply andb_true_iff in H1 as [Hx H1].
  destruct (IH _ H1 H2) as [Hws _].
  unfold wordUnit in Hx. rewrite Hws in Hx. discriminate.
Qed.

(** After a simple word at the head of a component, what follows a run
    of white space starts a new piece. *)
Lemma normalize_word_run (a w b : string) :
  simpleWord a -> isRun w -> simpleWord b ->
  normalize (a +:+ w +:+ b) = toLowerCase a +:+ "_" +:+ toLowerCase b.
Proof.
  intros Ha Hw Hb. rewrite (normalize_around_run a w b Hw).
  rewrite (normalize_simpleWord a Ha).
  assert (E : endsWithSpace false a = false).
  { destruct (endsWithSpace false a) eqn:E; [| reflexivity].
    now destruct (endsWithSpace_simpleWord false a Ha E). }
  rewrite E. f_equal. f_equal.
  apply replaceRuns_simpleWord. now apply simpleWord_lower.
Qed.

End SplitFacts.

Section SplitAppend.

Lemma split_none (sep : ascii) (a : string) :
  allUnits (fun c => negb (Ascii.eqb c sep)) a = true -> split sep a = (a, []).
Proof.
  induction a as [|x a IH]; intros Ha; [reflexivity |].
  simpl in Ha. apply andb_true_iff in Ha as [Hx Ha]. apply negb_true_iff in Hx.
  now rewrite (split_other sep x a Hx), (IH Ha).
Qed.

(** The pieces of a string cut at a separator: those of the part before
    it, then those of the part after it. *)
Lemma split_app_sep (sep : ascii) (a b : string) :
  split sep (a +:+ String sep b)
  = (fst (split sep a),
     snd (split sep a) ++ fst (split sep b) :: snd (split sep b)).
Proof.
  induction a as [|x a IH].
  - rewrite append_nil. apply split_sep.
  - rewrite append_cons. destruct (Ascii.eqb x sep) eqn:E.
    + apply Ascii.eqb_eq in E as ->. rewrite !split_sep, IH. reflexivity.
    + rewrite !(split_other sep x _ E), IH. reflexivity.
Qed.

End SplitAppend.

Section DebugView.
Context {T : Type}.
Implicit Types (cache : gmap string (CacheEntry T)) (entry : CacheEntry T).

Lemma debugRecord_eq now (k : string) entry :
  debugRecord now k entry
  = {| key := k;
       type := fst (split "_" k);
       location := template (snd (split "_" k) !! 0%nat) +:+ " "
                     +:+ template (snd (split "_" k) !! 1%nat);
       age := JsNumber.roundDiv (now - timestamp entry) 60000;
       expiresIn := JsNumber.roundDiv (expiresAt entry - now) 60000 |}.
Proof. unfold debugRecord. now destruct (split "_" k). Qed.

Lemma elem_of_getDebugInfo now cache (r : DebugInfo) :
  r ∈ getDebugInfo now cache <->
  exists (k : string) entry, cache !! k = Some entry /\ r = debugRecord now k entry.
Proof.
  unfold getDebugInfo. rewrite list_elem_of_fmap. split.
  - intros ([k entry] & -> & Hin). apply elem_of_map_to_list in Hin. eauto.
  - intros (k & entry & Hk & ->). exists (k, entry). split; [reflexivity |].
    now apply elem_of_map_to_list.
Qed.

(** X11.  [getDebugInfo] gives one record per entry, and on a cache
    that started empty no record shows [undefined]: the key of each has at
    least three pieces, the first is reported as the type and the next two,
    with a space between them, as the location. *)
Theorem debug_records_defined :
  (forall now cache, length (getDebugInfo now cache) = size cache) /\
  (forall now (ops : list (Op T)) (r : DebugInfo),
     r ∈ getDebugInfo now (run ops ∅) ->
     exists entry (city country : string) (others : list string),
       run ops ∅ !! key r = Some entry /\
       split "_" (key r) = (type r, city :: country :: others) /\
       location r = city +:+ " " +:+ country).
Proof.
  split.
  - intros now cache. unfold getDebugInfo.
    now rewrite length_fmap, length_map_to_list.
  - intros now ops r Hr.
    apply elem_of_getDebugInfo in Hr as (k & entry & Hk & ->).
    assert (Hempty : keysDerived (∅ : gmap string (CacheEntry T))).
    { intros j Hj. rewrite lookup_empty in Hj. now destruct Hj. }
    destruct (run_keysDerived ops ∅ Hempty k) as (ty & loc & Ek); [eauto |].
    pose proof (generateKey_separators ty loc) as Hsep. rewrite <- Ek in Hsep.
    rewrite <- split_others_length in Hsep.
    rewrite debugRecord_eq. simpl.
    destruct (split "_" k) as [first others] eqn:Es. simpl in *.
    destruct others as [|city [|country others]]; simpl in Hsep; try lia.
    exists entry, city, country, others. auto.
Qed.

(** X12.  When the kind, the city and the country hold neither white
    space nor the separator, the debugging view of the entry that [set]
    wrote tells them apart again (in lower case): the record has the kind
    as type and the city and the country as location. *)
Theorem debug_recovers_simple_components
    (ty : string) (loc : Location) (d : T) (t_stamp t_exp now : Z) cache :
  simpleWord ty -> simpleWord (city loc) -> simpleWord (country loc) ->
  {| key := generateKey ty loc;
     type := toLowerCase ty;
     location := toLowerCase (city loc) +:+ " " +:+ toLowerCase (country loc);
     age := JsNumber.roundDiv (now - t_stamp) 60000;
     expiresIn := JsNumber.roundDiv (t_exp + getTTL ty - now) 60000 |}
  ∈ getDebugInfo now (set ty loc d t_stamp t_exp cache).
Proof.
  intros Ht Hc Hk. apply elem_of_getDebugInfo.
  exists (generateKey ty loc). eexists. split; [apply set_lookup |].
  rewrite debugRecord_eq. simpl.
  assert (Es : split "_" (generateKey ty loc)
               = (toLowerCase ty, [toLowerCase (city loc); toLowerCase (country loc)])).
  { rewrite generateKey_normalize, !normalize_simpleWord by assumption.
    change ("_" +:+ toLowerCase (city loc) +:+ "_" +:+ toLowerCase (country loc))
      with (String "_" (toLowerCase (city loc)
                          +:+ String "_" (toLowerCase (country loc)))).
    rewrite !split_app_sep.
    rewrite !split_none by (apply wordUnit_not_sep; now apply simpleWord_lower).
    reflexivity. }
  now rewrite Es.
Qed.

(** X13.  The debugging view cuts the key at every separator, also at
    the one inside the kind [environmental_data]: whatever the location,
    the entry of that kind is reported with type [environmental] and a
    location made of [data] and the first word of the city. *)
Theorem debug_misreports_aggregate_kind (loc : Location) (now : Z) entry :
  type (debugRecord now (generateKey "environmental_data" loc) entry)
  = "environmental" /\
  location (debugRecord now (generateKey "environmental_data" loc) entry)
  = "data " +:+ fst (split "_" (normalize (city loc))).
Proof.
  rewrite debugRecord_eq.
  assert (Ek : generateKey "environmental_data" loc
               = "environmental"
                   +:+ String "_" ("data"
                   +:+ String "_" (normalize (city loc)
                   +:+ String "_" (normalize (country loc)))))
    by (rewrite generateKey_normalize; reflexivity).
  rewrite Ek, !split_app_sep. simpl. split; reflexivity.
Qed.

(** X14.  A city of two words loses the country in the debugging view:
    with a kind and two words free of white space and separator, the
    location reported is the two words of the city, whatever the
    country. *)
Theorem debug_two_word_city_drops_country
    (ty a w b country : string) (now : Z) entry :
  simpleWord ty -> simpleWord a -> isRun w -> simpleWord b ->
  location (debugRecord now
              (generateKey ty {| city := a +:+ w +:+ b; country := country |}) entry)
  = toLowerCase a +:+ " " +:+ toLowerCase b.
Proof.
  intros Ht Ha Hw Hb. rewrite debugRecord_eq. simpl.
  rewrite generateKey_normalize. simpl.
  rewrite (normalize_simpleWord ty Ht), (normalize_word_run a w b Ha Hw Hb).
  rewrite !append_assoc'.
  change ("_" +:+ toLowerCase a +:+ "_" +:+ toLowerCase b +:+ "_" +:+ normalize country)
    with (String "_" (toLowerCase a
            +:+ String "_" (toLowerCase b +:+ String "_" (normalize country)))).
  rewrite !split_app_sep.
  rewrite !split_none by (apply wordUnit_not_sep; now apply simpleWord_lower).
  reflexivity.
Qed.


End DebugView.

(** ** The further properties on concrete calls *)

(** The debugging view of one entry, ten minutes of life, one minute
    old: the key is cut into pieces and the country is not shown. *)
Example getDebugInfo_new_york :
  getDebugInfo 60000
    (set "weather" {| city := "New York"; country := "US" |} "sunny" 0 0 ∅)
  = [ {| key := "weather_new_york_us"; type := "weather"; location := "new york";
         age := 1; expiresIn := 9 |} ].
Proof. vm_compute. reflexivity. Qed.

Example split_key : split "_" "weather_new_york_us" = ("weather", ["new"; "york"; "us"]).
Proof. reflexivity. Qed.

Example split_without_separator : split "_" "weather" = ("weather", []).
Proof. reflexivity. Qed.

Lemma miss_is_sticky_witness :
  (generateKey "weather" {| city := "LAGOS"; country := "ng" |}
   = generateKey "weather" {| city := "Lagos"; country := "NG" |} /\
   fst (get "weather" {| city := "Lagos"; country := "NG" |} 600000
          (set "weather" {| city := "Lagos"; country := "NG" |} "sunny" 0 0 ∅)) = None) /\
  get "weather" {| city := "LAGOS"; country := "ng" |} 5
    (snd (get "weather" {| city := "Lagos"; country := "NG" |} 600000
            (set "weather" {| city := "Lagos"; country := "NG" |} "sunny" 0 0 ∅)))
  = (None,
     snd (get "weather" {| city := "Lagos"; country := "NG" |} 600000
            (set "weather" {| city := "Lagos"; country := "NG" |} "sunny" 0 0 ∅))).
Proof.
  assert (Hkey : generateKey "weather" {| city := "LAGOS"; country := "ng" |}
                 = generateKey "weather" {| city := "Lagos"; country := "NG" |})
    by reflexivity.
  assert (Hmiss : fst (get "weather" {| city := "Lagos"; country := "NG" |} 600000
          (set "weather" {| city := "Lagos"; country := "NG" |} "sunny" 0 0 ∅)) = None)
    by reflexivity.
  split; [auto |].
  exact (miss_is_sticky "weather" "weather"
           {| city := "Lagos"; country := "NG" |} {| city := "LAGOS"; country := "ng" |}
           600000 5 _ Hkey Hmiss).
Defined.

Lemma other_keys_untouched_witness :
  generateKey "news" {| city := "Lagos"; country := "NG" |}
  <> generateKey "weather" {| city := "Lagos"; country := "NG" |} /\
  fst (get "news" {| city := "Lagos"; country := "NG" |} 7
         (set "weather" {| city := "Lagos"; country := "NG" |} "sunny" 5 5
            (set "news" {| city := "Lagos"; country := "NG" |} "headline" 0 0 ∅)))
  = fst (get "news" {| city := "Lagos"; country := "NG" |} 7
           (set "news" {| city := "Lagos"; country := "NG" |} "headline" 0 0 ∅)).
Proof.
  assert (Hne : generateKey "news" {| city := "Lagos"; country := "NG" |}
                <> generateKey "weather" {| city := "Lagos"; country := "NG" |})
    by discriminate.
  split; [exact Hne |].
  exact (proj1 (other_keys_untouched "weather" "news"
                  {| city := "Lagos"; country := "NG" |}
                  {| city := "Lagos"; country := "NG" |} "sunny" 5 5 0 7
                  (set "news" {| city := "Lagos"; country := "NG" |} "headline" 0 0 ∅)
                  Hne)).
Defined.

Lemma lifetime_exact_witness :
  generateKey "news" {| city := "lagos"; country := "ng" |}
  = generateKey "news" {| city := "Lagos"; country := "NG" |} /\
  (fst (get "news" {| city := "lagos"; country := "ng" |} 1800000
          (set "news" {| city := "Lagos"; country := "NG" |} "headline" 0 1 ∅))
   = Some "headline" <-> 1800000 < 1 + getTTL "news") /\
  (fst (get "news" {| city := "lagos"; country := "ng" |} 1800001
          (set "news" {| city := "Lagos"; country := "NG" |} "headline" 0 1 ∅))
   = None <-> 1 + getTTL "news" <= 1800001).
Proof.
  assert (Hkey : generateKey "news" {| city := "lagos"; country := "ng" |}
                 = generateKey "news" {| city := "Lagos"; country := "NG" |})
    by reflexivity.
  split; [exact Hkey |]. split.
  - exact (proj1 (lifetime_exact "news" "news" {| city := "Lagos"; country := "NG" |}
                    {| city := "lagos"; country := "ng" |} "headline" 0 1 1800000 ∅ Hkey)).
  - exact (proj2 (lifetime_exact "news" "news" {| city := "Lagos"; country := "NG" |}
                    {| city := "lagos"; country := "ng" |} "headline" 0 1 1800001 ∅ Hkey)).
Defined.

Lemma lifetime_bounds_witness :
  (299999 < 0 + 5 * 60 * 1000 /\ 0 + 60 * 60 * 1000 <= 3600000) /\
  fst (get "tides" {| city := "Lagos"; country := "NG" |} 299999
         (set "tides" {| city := "Lagos"; country := "NG" |} "high" 0 0 ∅)) = Some "high" /\
  fst (get "satellite" {| city := "Lagos"; country := "NG" |} 3600000
         (set "satellite" {| city := "Lagos"; country := "NG" |} "clear" 0 0 ∅)) = None.
Proof.
  assert (H1 : 299999 < 0 + 5 * 60 * 1000) by reflexivity.
  assert (H2 : 0 + 60 * 60 * 1000 <= 3600000) by discriminate.
  split; [auto |]. split.
  - exact (proj1 (lifetime_bounds "tides" {| city := "Lagos"; country := "NG" |}
                    "high" 0 0 299999 ∅) H1).
  - exact (proj2 (lifetime_bounds "satellite" {| city := "Lagos"; country := "NG" |}
                    "clear" 0 0 3600000 ∅) H2).
Defined.

Lemma Weather_sameSpelling : sameSpelling "Weather" "weather".
Proof.
  apply spellUnit; [reflexivity | right; left; split; reflexivity |].
  repeat (apply spellUnit; [reflexivity | left; reflexivity |]).
  apply spellEmpty.
Defined.

(** [Weather] writes where [weather] does, with five minutes instead of
    ten. *)
Lemma respelled_kind_gets_default_ttl_witness :
  ("weather" ∈ recognizedKinds /\ sameSpelling "Weather" "weather" /\
   "Weather" <> "weather") /\
  generateKey "Weather" {| city := "Lagos"; country := "NG" |}
  = generateKey "weather" {| city := "Lagos"; country := "NG" |} /\
  getTTL "Weather" = 5 * 60 * 1000.
Proof.
  assert (Hin : "weather" ∈ recognizedKinds) by (unfold recognizedKinds; constructor).
  assert (Hne : "Weather" <> "weather") by discriminate.
  split; [auto using Weather_sameSpelling |].
  destruct (respelled_kind_gets_default_ttl "weather" "Weather" Hin Weather_sameSpelling Hne)
    as [Hkey Httl].
  split; [apply Hkey | exact Httl].
Defined.

Lemma cleanup_invisible_to_get_witness :
  3600001 <= 3600002 /\
  fst (get "news" {| city := "Lagos"; country := "NG" |} 3600002
         (cleanup 3600001
            (set "news" {| city := "Lagos"; country := "NG" |} "headline" 3600000 3600000
               (set "satellite" {| city := "Lagos"; country := "NG" |} "clear" 0 0 ∅))))
  = fst (get "news" {| city := "Lagos"; country := "NG" |} 3600002
           (set "news" {| city := "Lagos"; country := "NG" |} "headline" 3600000 3600000
              (set "satellite" {| city := "Lagos"; country := "NG" |} "clear" 0 0 ∅))).
Proof.
  assert (Hle : 3600001 <= 3600002) by discriminate.
  split; [exact Hle |].
  exact (cleanup_invisible_to_get "news" {| city := "Lagos"; country := "NG" |}
           3600001 3600002 _ Hle).
Defined.

Lemma hits_come_from_sets_witness :
  (Forall (fun op : Op string =>
             ~ writes (generateKey "news" {| city := "Lagos"; country := "NG" |}) op)
     [OpCleanup 5;
      OpSet "weather" {| city := "Lagos"; country := "NG" |} "sunny" 6 6;
      OpGetStats 7] /\
   fst (get "news" {| city := "Lagos"; country := "NG" |} 8
          (run [OpCleanup 5;
                OpSet "weather" {| city := "Lagos"; country := "NG" |} "sunny" 6 6;
                OpGetStats 7]
             (set "news" {| city := "Lagos"; country := "NG" |} "headline" 0 0 ∅)))
   = Some "headline") /\
  fst (get "news" {| city := "Lagos"; country := "NG" |} 8
         (set "news" {| city := "Lagos"; country := "NG" |} "headline" 0 0 ∅))
  = Some "headline".
Proof.
  assert (Hops : Forall (fun op : Op string =>
             ~ writes (generateKey "news" {| city := "Lagos"; country := "NG" |}) op)
     [OpCleanup 5;
      OpSet "weather" {| city := "Lagos"; country := "NG" |} "sunny" 6 6;
      OpGetStats 7]).
  { repeat constructor; simpl; try tauto. discriminate. }
  assert (Hhit : fst (get "news" {| city := "Lagos"; country := "NG" |} 8
          (run [OpCleanup 5;
                OpSet "weather" {| city := "Lagos"; country := "NG" |} "sunny" 6 6;
                OpGetStats 7]
             (set "news" {| city := "Lagos"; country := "NG" |} "headline" 0 0 ∅)))
   = Some "headline") by (vm_compute; reflexivity).
  split; [auto |].
  exact (proj2 (hits_come_from_sets "news" {| city := "Lagos"; country := "NG" |} 8
                  (set "news" {| city := "Lagos"; country := "NG" |} "headline" 0 0 ∅)
                  _ Hops) "headline" Hhit).
Defined.

Lemma reachable_keys_shape_witness :
  run [OpSet "Weather" {| city := "New  York"; country := "US" |} "sunny" 0 0;
       OpCleanup 5] ∅ !! "weather_new_york_us"
  = Some {| data := "sunny"; timestamp := 0; expiresAt := 300000 |} /\
  allUnits plainUnit "weather_new_york_us" = true /\
  (2 <= occurrences "_" "weather_new_york_us")%nat.
Proof.
  assert (Hk : run [OpSet "Weather" {| city := "New  York"; country := "US" |} "sunny" 0 0;
                    OpCleanup 5] ∅ !! "weather_new_york_us"
               = Some {| data := "sunny"; timestamp := 0; expiresAt := 300000 |})
    by (vm_compute; reflexivity).
  split; [exact Hk |].
  exact (proj2 (reachable_keys_shape
                  [OpSet "Weather" {| city := "New  York"; country := "US" |} "sunny" 0 0;
                   OpCleanup 5]
                  "weather_new_york_us" (ex_intro _ _ Hk))).
Defined.

Lemma debug_records_defined_witness :
  {| key := "weather_new_york_us"; type := "weather"; location := "new york";
     age := 1; expiresIn := 9 |}
  ∈ getDebugInfo 60000
      (run [OpSet "weather" {| city := "New York"; country := "US" |} "sunny" 0 0] ∅) /\
  exists (entry : CacheEntry string) (city country : string) (others : list string),
    run [OpSet "weather" {| city := "New York"; country := "US" |} "sunny" 0 0] ∅
      !! "weather_new_york_us" = Some entry /\
    split "_" "weather_new_york_us" = ("weather", city :: country :: others) /\
    "new york" = city +:+ " " +:+ country.
Proof.
  assert (Hin : {| key := "weather_new_york_us"; type := "weather"; location := "new york";
                   age := 1; expiresIn := 9 |}
                ∈ getDebugInfo 60000
                    (run [OpSet "weather" {| city := "New York"; country := "US" |}
                            "sunny" 0 0] ∅)).
  { apply elem_of_getDebugInfo. exists "weather_new_york_us". eexists.
    split; [apply set_lookup | reflexivity]. }
  split; [exact Hin |].
  exact (proj2 (@debug_records_defined string) 60000 _ _ Hin).
Defined.

Lemma debug_recovers_simple_components_witness :
  (simpleWord "Weather" /\ simpleWord "Lagos" /\ simpleWord "NG") /\
  {| key := "weather_lagos_ng"; type := "weather"; location := "lagos ng";
     age := JsNumber.roundDiv (90000 - 0) 60000;
     expiresIn := JsNumber.roundDiv (0 + getTTL "Weather" - 90000) 60000 |}
  ∈ getDebugInfo 90000
      (set "Weather" {| city := "Lagos"; country := "NG" |} "sunny" 0 0 ∅).
Proof.
  split; [repeat split |].
  exact (debug_recovers_simple_components "Weather" {| city := "Lagos"; country := "NG" |}
           "sunny" 0 0 90000 ∅ eq_refl eq_refl eq_refl).
Defined.

Lemma debug_two_word_city_drops_country_witness :
  (simpleWord "weather" /\ simpleWord "New" /\ isRun " " /\ simpleWord "York") /\
  location (debugRecord 0
              (generateKey "weather" {| city := "New" +:+ " " +:+ "York"; country := "US" |})
              {| data := "sunny"; timestamp := 0; expiresAt := 600000 |})
  = "new york".
Proof.
  assert (Hrun : isRun " ") by (split; [discriminate | reflexivity]).
  split; [repeat split; auto; apply Hrun |].
  exact (debug_two_word_city_drops_country "weather" "New" " " "York" "US" 0
           {| data := "sunny"; timestamp := 0; expiresAt := 600000 |}
           eq_refl eq_refl Hrun eq_refl).
Defined.

